(** * py2tex: a Python-expression to LaTeX translator

    Shallow embedding of [src/py2tex.py] and the properties checked
    against it.  The translator is the class [LatexVisitor], an
    [ast.NodeVisitor] whose [visit_*] methods produce LaTeX fragments and
    whose [prec_*] methods give binding strengths, together with the entry
    point [py2tex], which post-processes the fragment of the root node.

    The Python parser ([ast], [asttokens]) and the symbolic evaluator
    ([sympy]) are libraries outside the repository: trees are inputs of the
    model, each node carrying the source text [asttokens] reports for it,
    and the evaluator is taken through the interface [Sympy]. *)

From Stdlib Require Import ZArith List Bool Ascii String Lia FinFun.
From Stdlib Require Import DecimalString DecimalNat.
Import ListNotations.

Local Set Warnings "-register-all".

Open Scope string_scope.
Open Scope Z_scope.

(** ** Python values, exceptions and the result monad *)

(** The exceptions the translator can run into. *)
Inductive pyerr : Type :=
| IndexError       (* [n.args[0]], [n.args[1]] on a short argument list *)
| AttributeError   (* [.elts], [.is_Add], [.replace] on an object without it *)
| ValueError       (* unpacking a sequence that has not three elements *)
| TypeError        (* [str.join] or [str.replace] given [None] *)
| SympifyError.    (* the evaluator rejects a text *)

(** A computation returns a value or raises. *)
Inductive res (A : Type) : Type :=
| Ok (a : A)
| Raise (e : pyerr).
Arguments Ok {A} a.
Arguments Raise {A} e.

Definition bind {A B : Type} (m : res A) (k : A -> res B) : res B :=
  match m with
  | Ok a => k a
  | Raise e => Raise e
  end.

Notation "x <- m ;; k" := (bind m (fun x => k))
  (at level 61, m at next level, right associativity).
Notation "' p <- m ;; k" := (bind m (fun x => match x with p => k end))
  (at level 61, p pattern, m at next level, right associativity).

(** What a [visit] call returns: a string, or [None] when the node class
    has no [visit_*] method and [NodeVisitor.generic_visit] runs. *)
Inductive pyval : Type :=
| VNone
| VStr (s : string).

(** [str(v)], as applied by the [%s] and [{}] format directives. *)
Definition fmt (v : pyval) : string :=
  match v with
  | VNone => "None"
  | VStr s => s
  end.

(** ** Strings *)

Module Str.

(** [sep.join(l)] on a list of strings. *)
Fixpoint join (sep : string) (l : list string) : string :=
  match l with
  | [] => EmptyString
  | [s] => s
  | s :: l' => s ++ sep ++ join sep l'
  end.

(** [s[k:]]. *)
Fixpoint drop (k : nat) (s : string) : string :=
  match k, s with
  | O, _ => s
  | S k', String _ s' => drop k' s'
  | S _, EmptyString => EmptyString
  end.

(** [p in s]. *)
Fixpoint contains (p s : string) : bool :=
  match s with
  | EmptyString => prefix p EmptyString
  | String _ s' => prefix p s || contains p s'
  end.

(** The scan of [str.replace] for a non-empty [old]: left to right, an
    occurrence of [old] at the cursor is replaced and the cursor jumps
    behind it ([skip] counts the characters still to jump over). *)
Fixpoint replace_from (old new : string) (skip : nat) (s : string) : string :=
  match s with
  | EmptyString => EmptyString
  | String c s' =>
      match skip with
      | S k => replace_from old new k s'
      | O =>
          if prefix old s
          then new ++ replace_from old new (String.length old - 1) s'
          else String c (replace_from old new 0 s')
      end
  end.

(** [s.replace(old, new)] for the empty [old] puts [new] before every
    character and at the end. *)
Fixpoint interleave (new s : string) : string :=
  match s with
  | EmptyString => new
  | String c s' => new ++ String c (interleave new s')
  end.

(** [s.replace(old, new)]. *)
Definition replace (old new s : string) : string :=
  match old with
  | EmptyString => interleave new s
  | String _ _ => replace_from old new 0 s
  end.

(** [str(n)] for a Python int. *)
Definition of_Z (z : Z) : string := NilZero.string_of_int (Z.to_int z).

(** [str(n)] for a length. *)
Definition of_nat (n : nat) : string := NilZero.string_of_uint (Nat.to_uint n).

End Str.

(** ** The expression tree *)

(** [ast.operator]: the classes a [BinOp] carries in [op]. *)
Inductive operator : Type :=
| Add | Sub | Mult | MatMult | Div | Mod | Pow
| LShift | RShift | BitOr | BitXor | BitAnd | FloorDiv.

(** [ast.unaryop]: the classes a [UnaryOp] carries in [op]. *)
Inductive unaryop : Type :=
| Invert | Not | UAdd | USub.

(** The value [n.n] of a [Num] node.  A float or complex value is kept as
    the text [str] gives for it (Python's shortest round-trip form), which
    identifies the value. *)
Inductive pynum : Type :=
| PyInt (z : Z)
| PyFloat (repr : string).

(** The node classes with a field [elts]. *)
Inductive seqkind : Type := KTuple | KList | KSet.

(** The expression nodes of [ast], as the translator sees them (the AST of
    the Python versions that have [ast.Num]).  [src] is the text
    [atok.get_text] returns for the node.  [Other] stands for every
    expression class the translator has no method for and that has no
    [elts] ([Compare], [Attribute], [Str], [NameConstant], ...), with its
    class name and its child expressions in field order.  A [Call] also has
    [keywords], which the translator never reads. *)
Inductive node : Type :=
| Call (src : string) (func : node) (args : list node)
| Name (src : string) (id : string)
| Num (src : string) (n : pynum)
| UnaryOp (src : string) (op : unaryop) (operand : node)
| BinOp (src : string) (op : operator) (left right : node)
| Seq (src : string) (kind : seqkind) (elts : list node)
| Other (src : string) (cls : string) (children : list node).

(** [atok.get_text(n)]. *)
Definition get_text (n : node) : string :=
  match n with
  | Call s _ _ | Name s _ | Num s _ | UnaryOp s _ _
  | BinOp s _ _ _ | Seq s _ _ | Other s _ _ => s
  end.

(** ** The symbolic evaluator *)

(** What the translator uses of [sympy]. *)
Record Sympy : Type := {
  sval : Type;                      (* what [sympify] returns *)
  sympify : string -> res sval;     (* [sympy.sympify(text)] *)
  is_Add : sval -> res bool;        (* [v.is_Add] *)
  is_Expr : sval -> bool;           (* [isinstance(v, sympy.Expr)] *)
  sstr : sval -> string;            (* [str(v)] *)
  latex : sval -> res string        (* [sympy.latex(v)] *)
}.

(** ** Precedence: the [prec_*] methods *)

(** [prec] on an operator object: [prec_Add] ... [prec_FloorDiv], and
    [generic_prec] for the classes without a method. *)
Definition prec_operator (op : operator) : Z :=
  match op with
  | Sub => 300
  | Add => 300
  | Mult => 400
  | Mod => 500
  | Pow => 700
  | Div => 400
  | FloorDiv => 400
  | MatMult | LShift | RShift | BitOr | BitXor | BitAnd => 0
  end.

Definition prec_unaryop (op : unaryop) : Z :=
  match op with
  | Invert => 800
  | Not => 800
  | UAdd => 800
  | USub => 800
  end.

(** [prec] on a node: [prec_Call], [prec_Name], [prec_Num], [prec_UnaryOp],
    [prec_BinOp], else [generic_prec]. *)
Definition prec (n : node) : Z :=
  match n with
  | Call _ _ _ => 1000
  | Name _ _ => 1000
  | Num _ _ => 1000
  | UnaryOp _ op _ => prec_unaryop op
  | BinOp _ op _ _ => prec_operator op
  | Seq _ _ _ | Other _ _ _ => 0
  end.

(** ** Translation: the [visit_*] methods *)

(** [visit] on an operator object: the [visit_*] method of its class, or
    [generic_visit], which returns [None], for [Pow], [Div], [FloorDiv] and
    [MatMult], which have none. *)
Definition visit_operator (op : operator) : pyval :=
  match op with
  | Sub => VStr "-"
  | Add => VStr "+"
  | Mult => VStr " "
  | Mod => VStr "\bmod"
  | LShift => VStr "\operatorname{shiftLeft}"
  | RShift => VStr "\operatorname{shiftRight}"
  | BitOr => VStr "\operatorname{or}"
  | BitXor => VStr "\operatorname{xor}"
  | BitAnd => VStr "\operatorname{and}"
  | Pow | Div | FloorDiv | MatMult => VNone
  end.

Definition visit_unaryop (op : unaryop) : pyval :=
  match op with
  | Invert => VStr "\operatorname{invert}"
  | Not => VStr "\neg"
  | UAdd => VStr "+"
  | USub => VStr "-"
  end.

(** [str(n.n)]. *)
Definition str_num (n : pynum) : string :=
  match n with
  | PyInt z => Str.of_Z z
  | PyFloat repr => repr
  end.

(** [r'\left(%s\right)' % v]. *)
Definition wrap (s : string) : string := "\left(" ++ s ++ "\right)".

(** [v == s] for a string [s]. *)
Definition is_str (v : pyval) (s : string) : bool :=
  match v with
  | VNone => false
  | VStr t => (t =? s)%string
  end.

(** The strings of a list of values, if none of them is [None]. *)
Fixpoint all_strings (vs : list pyval) : option (list string) :=
  match vs with
  | [] => Some []
  | VNone :: _ => None
  | VStr s :: vs' => option_map (cons s) (all_strings vs')
  end.

(** [replacements[k] = v] on a dict, kept in insertion order. *)
Fixpoint dict_set (k : string) (v : pyval) (d : list (string * pyval))
  : list (string * pyval) :=
  match d with
  | [] => [(k, v)]
  | (k', v') :: d' =>
      if (k' =? k)%string then (k, v) :: d' else (k', v') :: dict_set k v d'
  end.

(** The closing loop of [visit_Call]:
    [for dummy in replacements.keys(): our_latex = our_latex.replace(dummy, replacements[dummy])].
    [str.replace] rejects [None] as its second argument. *)
Fixpoint substitute (replacements : list (string * pyval)) (our_latex : string)
  : res string :=
  match replacements with
  | [] => Ok our_latex
  | (dummy, VStr l) :: r => substitute r (Str.replace dummy l our_latex)
  | (_, VNone) :: _ => Raise TypeError
  end.

(** ["py2texdummyvar{}".format(n)]. *)
Definition dummy_name (n : nat) : string := "py2texdummyvar" ++ Str.of_nat n.

Section Visitor.

Variable sy : Sympy.

Section Methods.

(** The methods call back into [self.visit]. *)
Variable visit : node -> res pyval.

(** [map(self.visit, l)], consumed to its end. *)
Definition visit_all : list node -> res (list pyval) :=
  fix go (l : list node) : res (list pyval) :=
    match l with
    | [] => Ok []
    | a :: l' => v <- visit a ;; vs <- go l' ;; Ok (v :: vs)
    end.

(** [index, lower_limit, upper_limit = map(self.visit, elts)]: the
    unpacking draws three items, then one more to see that the iterator is
    exhausted. *)
Definition unpack3 (elts : list node) : res (pyval * pyval * pyval) :=
  match elts with
  | a :: b :: c :: rest =>
      va <- visit a ;;
      vb <- visit b ;;
      vc <- visit c ;;
      match rest with
      | [] => Ok (va, vb, vc)
      | d :: _ => _ <- visit d ;; Raise ValueError
      end
  | _ => _ <- visit_all elts ;; Raise ValueError
  end.

(** [visit_Call], the branch [func == 'Sum' or func == 'Product']. *)
Definition visit_SumProduct (func : pyval) (args : list node) : res pyval :=
  match args with
  | [] => Raise IndexError
  | body_node :: rest =>
      let body_source := get_text body_node in
      body <- visit body_node ;;
      sympified <- sympify sy body_source ;;
      needs_parentheses <- is_Add sy sympified ;;
      let body := if needs_parentheses : bool then VStr (wrap (fmt body)) else body in
      match rest with
      | [] => Raise IndexError
      | Seq _ _ elts :: _ =>
          ' (index, lower_limit, upper_limit) <- unpack3 elts ;;
          let sum_or_prod := if is_str func "Sum" then "sum_" else "prod_" in
          Ok (VStr ("\" ++ sum_or_prod ++ " {" ++ fmt index ++ "=" ++ fmt lower_limit
                      ++ "}^{" ++ fmt upper_limit ++ "} " ++ fmt body))
      | _ :: _ => Raise AttributeError
      end
  end.

(** [visit_Call], the loop [for arg in n.args] that fills [dummified_args]
    and [replacements]. *)
Definition dummify
  : list node -> list string -> list (string * pyval) ->
    res (list string * list (string * pyval)) :=
  fix go args dummified_args replacements :=
    match args with
    | [] => Ok (dummified_args, replacements)
    | arg :: args' =>
        let arg_text := get_text arg in
        sympified_arg <- sympify sy arg_text ;;
        if is_Expr sy sympified_arg then
          let dummy_arg := dummy_name (List.length dummified_args) in
          our_latex_arg <- visit arg ;;
          go args' (dummified_args ++ [dummy_arg])%list
             (dict_set dummy_arg our_latex_arg replacements)
        else
          go args' (dummified_args ++ [sstr sy sympified_arg])%list replacements
    end.

(** [visit_Call], the generic part from [dummified_args = []] on. *)
Definition visit_generic (func : node) (args : list node) : res pyval :=
  ' (dummified_args, replacements) <- dummify args [] [] ;;
  let func_text := get_text func in
  let s := func_text ++ "(" ++ Str.join "," dummified_args ++ ")" in
  sympified_dummy_expr <- sympify sy s ;;
  sympy_latex <- latex sy sympified_dummy_expr ;;
  our_latex <- substitute replacements sympy_latex ;;
  Ok (VStr our_latex).

(** [visit_Call], the branch [func in ("fibonacci", "lucas")]; [generic] is
    the rest of the method, reached when neither [return] is taken. *)
Definition visit_sequence (func : pyval) (args : list node) (generic : res pyval)
  : res pyval :=
  vs <- visit_all args ;;
  match all_strings vs with
  | None => Raise TypeError
  | Some ss =>
      let args := Str.join ", " ss in
      if is_str func "fibonacci" then Ok (VStr ("F_{" ++ args ++ "}"))
      else if is_str func "lucas" then Ok (VStr ("L_{" ++ args ++ "}"))
      else generic
  end.

Definition visit_Call (func : node) (args : list node) : res pyval :=
  f <- visit func ;;
  if is_str f "Sum" || is_str f "Product" then visit_SumProduct f args
  else if is_str f "fibonacci" || is_str f "lucas"
  then visit_sequence f args (visit_generic func args)
  else visit_generic func args.

Definition visit_UnaryOp (op : unaryop) (operand : node) : res pyval :=
  v <- visit operand ;;
  if prec_unaryop op >? prec operand
  then Ok (VStr (fmt (visit_unaryop op) ++ " \left(" ++ fmt v ++ "\right)"))
  else Ok (VStr (fmt (visit_unaryop op) ++ " " ++ fmt v)).

(** The test of the second [if] of [visit_BinOp]; [isinstance(n.op, ast.Sub)]
    is the match on [Sub]. *)
Definition groups_right (op : operator) (right : node) : bool :=
  (prec_operator op >? prec right)
  || (match op with Sub => true | _ => false end
      && (prec_operator op =? prec right)).

(** [visit_Div] and [visit_FloorDiv] visit both children a second time; the
    visitor has no state, so the second visit returns what the first did. *)
Definition visit_BinOp (op : operator) (l r : node) : res pyval :=
  vl <- visit l ;;
  let left := if prec_operator op >? prec l then VStr (wrap (fmt vl)) else vl in
  vr <- visit r ;;
  let right := if groups_right op r then VStr (wrap (fmt vr)) else vr in
  match op with
  | Div => Ok (VStr ("\frac{" ++ fmt vl ++ "}{" ++ fmt vr ++ "}"))
  | FloorDiv =>
      Ok (VStr ("\left\lfloor\frac{" ++ fmt vl ++ "}{" ++ fmt vr ++ "}\right\rfloor"))
  | Pow => Ok (VStr ("(" ++ fmt left ++ ")^{" ++ fmt vr ++ "}"))
  | _ => Ok (VStr (fmt left ++ fmt (visit_operator op) ++ fmt right))
  end.

(** [NodeVisitor.generic_visit]: visit the children, return [None]. *)
Definition generic_visit (children : list node) : res pyval :=
  _ <- visit_all children ;; Ok VNone.

End Methods.

(** [NodeVisitor.visit]: dispatch on the class of the node. *)
Fixpoint visit (n : node) : res pyval :=
  match n with
  | Call _ func args => visit_Call visit func args
  | Name _ id => Ok (VStr id)
  | Num _ v => Ok (VStr (str_num v))
  | UnaryOp _ op operand => visit_UnaryOp visit op operand
  | BinOp _ op l r => visit_BinOp visit op l r
  | Seq _ _ elts => generic_visit visit elts
  | Other _ _ children => generic_visit visit children
  end.

(** The two [replace] statements that end [py2tex]. *)
Definition cleanup (s : string) : string :=
  Str.replace "\right))" "\right)" (Str.replace "(\left(" "\left(" s).

(** [py2tex] from the parsed tree on: [tree] is [atok.tree.body[0].value].
    [None] has no [replace]. *)
Definition py2tex (tree : node) : res string :=
  s <- visit tree ;;
  match s with
  | VNone => Raise AttributeError
  | VStr s => Ok (cleanup s)
  end.

End Visitor.

(** ** Notions the properties are stated with *)

(** The identifiers occurring in a tree. *)
Fixpoint identifiers (n : node) : list string :=
  match n with
  | Call _ func args => identifiers func ++ flat_map identifiers args
  | Name _ id => [id]
  | Num _ _ => []
  | UnaryOp _ _ operand => identifiers operand
  | BinOp _ _ l r => identifiers l ++ identifiers r
  | Seq _ _ elts => flat_map identifiers elts
  | Other _ _ children => flat_map identifiers children
  end%list.

(** The positions, counted from [i], of the arguments the evaluator parses
    to an [Expr]: the arguments for which [dummify] makes a placeholder. *)
Fixpoint expr_positions (sy : Sympy) (args : list node) (i : nat) : list nat :=
  match args with
  | [] => []
  | arg :: args' =>
      match sympify sy (get_text arg) with
      | Ok v =>
          if is_Expr sy v then i :: expr_positions sy args' (S i)
          else expr_positions sy args' (S i)
      | Raise _ => []
      end
  end.

(** Trees without a [Call]: their translation never asks the evaluator. *)
Fixpoint call_free (n : node) : bool :=
  match n with
  | Call _ _ _ => false
  | Name _ _ | Num _ _ => true
  | UnaryOp _ _ operand => call_free operand
  | BinOp _ _ l r => call_free l && call_free r
  | Seq _ _ elts => forallb call_free elts
  | Other _ _ children => forallb call_free children
  end.

(** The node classes [LatexVisitor] has a [visit_*] method for. *)
Definition has_method (n : node) : bool :=
  match n with
  | Seq _ _ _ | Other _ _ _ => false
  | _ => true
  end.

(** Names, numbers, calls and unary operations: the nodes whose precedence
    is above that of every binary operator. *)
Definition binds_tightly (n : node) : bool :=
  match n with
  | Call _ _ _ | Name _ _ | Num _ _ | UnaryOp _ _ _ => true
  | _ => false
  end.

(** The node classes with a field [elts]. *)
Definition has_elts (n : node) : bool :=
  match n with
  | Seq _ _ _ => true
  | _ => false
  end.

(** The operators [visit_BinOp] renders as left, sign, right. *)
Definition infix_rendered (op : operator) : bool :=
  match op with
  | Div | FloorDiv | Pow => false
  | _ => true
  end.

(** [isinstance(v, str)]. *)
Definition is_string (v : pyval) : bool :=
  match v with
  | VStr _ => true
  | VNone => false
  end.

(** Strings without the character [x]. *)
Fixpoint lacks (x : ascii) (s : string) : bool :=
  match s with
  | EmptyString => true
  | String c s' => negb (Ascii.eqb c x) && lacks x s'
  end.

(** The keys of [replacements]: the placeholder names in use. *)
Definition keys (replacements : list (string * pyval)) : list string :=
  map fst replacements.

(** ** Concrete inputs *)

(** A small evaluator to run calls on: it keeps the text it is given,
    takes a text for additive when it has a [+], and for a non-[Expr]
    when it opens with a parenthesis, as the text of a tuple does. *)
Definition demo_sympy : Sympy := {|
  sval := string;
  sympify := fun s => Ok s;
  is_Add := fun v => Ok (Str.contains "+" v);
  is_Expr := fun v => negb (prefix "(" v);
  sstr := fun v => v;
  latex := fun v => Ok v
|}.

(** An evaluator that evaluates every call away, as [sympy] does for
    [diff] of one symbol by another: the LaTeX is [0]. *)
Definition zero_sympy : Sympy := {|
  sval := string;
  sympify := fun s => Ok s;
  is_Add := fun v => Ok false;
  is_Expr := fun v => true;
  sstr := fun v => v;
  latex := fun v => Ok "0"
|}.

Definition ident (s : string) : node := Name s s.
Definition int (z : Z) : node := Num (Str.of_Z z) (PyInt z).

(** [3-(1+2)/5] *)
Definition tree_3_minus_quot : node :=
  BinOp "3-(1+2)/5" Sub (int 3)
    (BinOp "(1+2)/5" Div (BinOp "1+2" Add (int 1) (int 2)) (int 5)).

(** [(3-1+2)/5] *)
Definition tree_quot_of_sum : node :=
  BinOp "(3-1+2)/5" Div
    (BinOp "3-1+2" Add (BinOp "3-1" Sub (int 3) (int 1)) (int 2)) (int 5).

(** [(i, 1, k)] *)
Definition tree_bounds : node :=
  Seq "(i, 1, k)" KTuple [ident "i"; int 1; ident "k"].

(** [Sum(i+k, (i, 1, k))] *)
Definition tree_sum_add : node :=
  Call "Sum(i+k, (i, 1, k))" (ident "Sum")
    [BinOp "i+k" Add (ident "i") (ident "k"); tree_bounds].

(** [Sum(i*k, (i, 1, k))] *)
Definition tree_sum_mult : node :=
  Call "Sum(i*k, (i, 1, k))" (ident "Sum")
    [BinOp "i*k" Mult (ident "i") (ident "k"); tree_bounds].

(** [fibonacci(n)] and [lucas(n)] *)
Definition tree_fibonacci : node := Call "fibonacci(n)" (ident "fibonacci") [ident "n"].
Definition tree_lucas : node := Call "lucas(n)" (ident "lucas") [ident "n"].

(** [((a+b)**2)**3] *)
Definition tree_pow_pow : node :=
  BinOp "((a+b)**2)**3" Pow
    (BinOp "(a+b)**2" Pow (BinOp "a+b" Add (ident "a") (ident "b")) (int 2))
    (int 3).

(** [((a+b)*c) % d] *)
Definition tree_nested_left : node :=
  BinOp "((a+b)*c) % d" Mod
    (BinOp "(a+b)*c" Mult (BinOp "a+b" Add (ident "a") (ident "b")) (ident "c"))
    (ident "d").

(** [x and y] *)
Definition tree_and : node := Other "x and y" "BoolOp" [ident "x"; ident "y"].

(** [(a+b)**2] *)
Definition tree_pow : node :=
  BinOp "(a+b)**2" Pow (BinOp "a+b" Add (ident "a") (ident "b")) (int 2).


(** [0x10], which Python reads as the int 16. *)
Definition tree_hex : node := Num "0x10" (PyInt 16).

(** [f(py2texdummyvar0)] *)
Definition tree_call_dummy : node :=
  Call "f(py2texdummyvar0)" (ident "f") [ident "py2texdummyvar0"].

(** [f(py2texdummyvar1, y)] *)
Definition tree_call_clash : node :=
  Call "f(py2texdummyvar1, y)" (ident "f") [ident "py2texdummyvar1"; ident "y"].

(** [(0,)] *)
Definition tree_tuple : node := Seq "(0,)" KTuple [int 0].


(** * Properties *)

(** ** Strings *)

Module StrFacts.

Lemma length_app (s t : string) :
  String.length (s ++ t) = (String.length s + String.length t)%nat.
Proof. induction s as [|c s IH]; simpl; [reflexivity | now rewrite IH]. Qed.

Lemma app_assoc (s t u : string) : (s ++ t) ++ u = s ++ t ++ u.
Proof. induction s as [|c s IH]; simpl; congruence. Qed.

Lemma app_inv_head (p s t : string) : p ++ s = p ++ t -> s = t.
Proof. induction p as [|c p IH]; simpl; [auto | intros [= H]; auto]. Qed.

Lemma prefix_cons (a b : ascii) (p s : string) :
  prefix (String a p) (String b s) = Ascii.eqb a b && prefix p s.
Proof.
  simpl. destruct (ascii_dec a b) as [->|Hne].
  - now rewrite Ascii.eqb_refl.
  - apply Ascii.eqb_neq in Hne. now rewrite Hne.
Qed.

Lemma prefix_length (p s : string) :
  prefix p s = true -> (String.length p <= String.length s)%nat.
Proof.
  revert s. induction p as [|a p IH]; intros [|b s]; simpl; try lia; try discriminate.
  destruct (ascii_dec a b); [|discriminate].
  intros H. apply IH in H. lia.
Qed.

Lemma prefix_nil (s : string) : prefix EmptyString s = true.
Proof. now destruct s. Qed.

Lemma prefix_app (p s : string) : prefix p (p ++ s) = true.
Proof.
  induction p as [|a p IH]; simpl; [now destruct s|].
  destruct (ascii_dec a a); congruence.
Qed.

Lemma prefix_same_length (p s : string) :
  prefix p s = true -> String.length p = String.length s -> p = s.
Proof.
  revert s. induction p as [|a p IH]; intros [|b s]; simpl; try discriminate; auto.
  destruct (ascii_dec a b) as [->|]; [|discriminate].
  intros H [= Hl]. f_equal. auto.
Qed.

Lemma contains_length (p s : string) :
  Str.contains p s = true -> (String.length p <= String.length s)%nat.
Proof.
  induction s as [|c s IH]; cbn [Str.contains].
  - apply prefix_length.
  - intros [H|H]%orb_true_iff.
    + apply prefix_length in H. exact H.
    + apply IH in H. simpl. lia.
Qed.

Lemma contains_same_length (p s : string) :
  Str.contains p s = true -> String.length p = String.length s -> p = s.
Proof.
  destruct s as [|c s]; cbn [Str.contains].
  - apply prefix_same_length.
  - intros [H|H]%orb_true_iff Hl.
    + now apply prefix_same_length.
    + apply contains_length in H. simpl in Hl. lia.
Qed.

Section Replace.

Variables old new : string.
Hypothesis old_nonempty : old <> EmptyString.

Lemma replace_nonempty (s : string) :
  Str.replace old new s = Str.replace_from old new 0 s.
Proof. unfold Str.replace. destruct old; [contradiction | reflexivity]. Qed.

(** Without an occurrence the scan copies its input. *)
Lemma replace_from_absent (s : string) :
  Str.contains old s = false -> Str.replace_from old new 0 s = s.
Proof.
  induction s as [|c s IH]; [reflexivity|].
  cbn [Str.contains Str.replace_from].
  intros [Hp Hc]%orb_false_iff. rewrite Hp. f_equal. auto.
Qed.

Hypothesis new_shorter : (String.length new <= String.length old)%nat.

(** The scan never makes a string longer, and the characters it jumps over
    are lost. *)
Lemma replace_from_length (s : string) (k : nat) :
  (String.length (Str.replace_from old new k s) <= String.length s - k)%nat.
Proof.
  revert k. induction s as [|c s IH]; intros k; [simpl; lia|].
  destruct k as [|k].
  - cbn [Str.replace_from].
    destruct (prefix old (String c s)) eqn:Hp.
    + apply prefix_length in Hp. rewrite length_app.
      specialize (IH (String.length old - 1)%nat).
      assert (0 < String.length old)%nat
        by (destruct old; [contradiction | simpl; lia]).
      simpl in Hp |- *. lia.
    + specialize (IH 0%nat). simpl. lia.
  - specialize (IH k). simpl. lia.
Qed.

Hypothesis new_strictly_shorter : (String.length new < String.length old)%nat.

(** With an occurrence ahead of the cursor, the result is strictly shorter. *)
Lemma replace_from_shrinks (s : string) (k : nat) :
  Str.contains old (Str.drop k s) = true ->
  (String.length (Str.replace_from old new k s) + k < String.length s)%nat.
Proof.
  revert k. induction s as [|c s IH]; intros k.
  - destruct k; simpl; destruct old; try contradiction; discriminate.
  - destruct k as [|k]; cbn [Str.drop Str.replace_from].
    + cbn [Str.contains]. destruct (prefix old (String c s)) eqn:Hp.
      * intros _. apply prefix_length in Hp. rewrite length_app.
        pose proof (replace_from_length s (String.length old - 1)).
        simpl in Hp |- *. lia.
      * simpl. intros H. specialize (IH 0%nat H). simpl. lia.
    + intros H. specialize (IH k H). simpl. lia.
Qed.

End Replace.

Lemma replace_absent (old new s : string) :
  old <> EmptyString -> Str.contains old s = false -> Str.replace old new s = s.
Proof.
  intros Hne Hc. rewrite replace_nonempty by assumption.
  now apply replace_from_absent.
Qed.

Lemma replace_length (old new s : string) :
  old <> EmptyString -> (String.length new <= String.length old)%nat ->
  (String.length (Str.replace old new s) <= String.length s)%nat.
Proof.
  intros Hne Hl. rewrite replace_nonempty by assumption.
  pose proof (replace_from_length old new Hne Hl s 0). lia.
Qed.

Lemma replace_shrinks (old new s : string) :
  old <> EmptyString -> (String.length new < String.length old)%nat ->
  Str.contains old s = true ->
  (String.length (Str.replace old new s) < String.length s)%nat.
Proof.
  intros Hne Hl Hc. rewrite replace_nonempty by assumption.
  pose proof (replace_from_shrinks old new Hne (Nat.lt_le_incl _ _ Hl) Hl s 0 Hc).
  lia.
Qed.

End StrFacts.

(** ** Induction on trees *)

(** The nodes of a list of children satisfy the property too. *)
Lemma node_ind_nested (P : node -> Prop)
  (HCall : forall src func args, P func -> Forall P args -> P (Call src func args))
  (HName : forall src id, P (Name src id))
  (HNum : forall src n, P (Num src n))
  (HUnaryOp : forall src op operand, P operand -> P (UnaryOp src op operand))
  (HBinOp : forall src op l r, P l -> P r -> P (BinOp src op l r))
  (HSeq : forall src kind elts, Forall P elts -> P (Seq src kind elts))
  (HOther : forall src cls children, Forall P children -> P (Other src cls children)) :
  forall n, P n.
Proof.
  fix IH 1. intros [src func args | src id | src n | src op operand
                   | src op l r | src kind elts | src cls children].
  - apply HCall; [apply IH|].
    induction args as [|a args IHargs]; constructor; [apply IH | exact IHargs].
  - apply HName.
  - apply HNum.
  - apply HUnaryOp, IH.
  - apply HBinOp; apply IH.
  - apply HSeq.
    induction elts as [|a elts IHelts]; constructor; [apply IH | exact IHelts].
  - apply HOther.
    induction children as [|a children IHch]; constructor; [apply IH | exact IHch].
Qed.

(** ** The post-processor *)

Section Cleanup.

Import StrFacts.

(** [cleanup] leaves a string as it is exactly when the string has none of
    the two patterns. *)
Lemma cleanup_fixed_iff (t : string) :
  cleanup t = t <->
  Str.contains "(\left(" t = false /\ Str.contains "\right))" t = false.
Proof.
  unfold cleanup. split.
  - intros Heq.
    assert (Hlen : forall u,
      (String.length (Str.replace "\right))" "\right)" u) <= String.length u)%nat).
    { intros u. apply replace_length; [discriminate | simpl; lia]. }
    destruct (Str.contains "(\left(" t) eqn:Ho.
    + exfalso.
      assert (Hs : (String.length (Str.replace "(\left(" "\left(" t) < String.length t)%nat).
      { apply replace_shrinks; [discriminate | simpl; lia | exact Ho]. }
      specialize (Hlen (Str.replace "(\left(" "\left(" t)).
      rewrite Heq in Hlen. lia.
    + split; [reflexivity|].
      rewrite (replace_absent "(\left(") in Heq by (discriminate || assumption).
      destruct (Str.contains "\right))" t) eqn:Hc; [exfalso | reflexivity].
      assert (Hs : (String.length (Str.replace "\right))" "\right)" t) < String.length t)%nat).
      { apply replace_shrinks; [discriminate | simpl; lia | exact Hc]. }
      rewrite Heq in Hs. lia.
  - intros [Ho Hc].
    rewrite (replace_absent "(\left(") by (discriminate || assumption).
    apply replace_absent; [discriminate | assumption].
Qed.

(** C6 (as amended).  Applying the post-processor a second time changes
    nothing exactly when its first result has neither [(\left(] nor
    [\right))] left in it; one pass does not always remove them all. *)
Theorem cleanup_twice_iff (s : string) :
  cleanup (cleanup s) = cleanup s <->
  Str.contains "(\left(" (cleanup s) = false /\
  Str.contains "\right))" (cleanup s) = false.
Proof. apply cleanup_fixed_iff. Qed.

(** C6 (as stated) fails on the fragment the translator gives for
    [((a+b)**2)**3]: the first pass leaves an opening pattern behind, the
    second pass takes it away. *)
Lemma cleanup_not_idempotent :
  visit demo_sympy tree_pow_pow = Ok (VStr "((\left(a+b\right))^{2})^{3}")
  /\ cleanup "((\left(a+b\right))^{2})^{3}" = "(\left(a+b\right)^{2})^{3}"
  /\ cleanup (cleanup "((\left(a+b\right))^{2})^{3}") = "\left(a+b\right)^{2})^{3}"
  /\ cleanup (cleanup "((\left(a+b\right))^{2})^{3}")
     <> cleanup "((\left(a+b\right))^{2})^{3}".
Proof. repeat split. vm_compute. discriminate. Qed.

End Cleanup.

(** ** Precedence *)

(** C5.  [prec] is a total function into the table: 300 for [Add] and
    [Sub], 400 for [Mult], [Div] and [FloorDiv], 500 for [Mod], 700 for
    [Pow], 800 for the four unary operators, 1000 for [Name], [Num] and
    [Call] nodes, 0 for every other operator and for every node class
    without a [prec_*] method; a [BinOp] or [UnaryOp] node has the
    precedence of its operator. *)
Theorem prec_table :
  (prec_operator Add = 300 /\ prec_operator Sub = 300)
  /\ (prec_operator Mult = 400 /\ prec_operator Div = 400
      /\ prec_operator FloorDiv = 400)
  /\ prec_operator Mod = 500
  /\ prec_operator Pow = 700
  /\ (prec_unaryop UAdd = 800 /\ prec_unaryop USub = 800
      /\ prec_unaryop Not = 800 /\ prec_unaryop Invert = 800)
  /\ (forall src id, prec (Name src id) = 1000)
  /\ (forall src n, prec (Num src n) = 1000)
  /\ (forall src func args, prec (Call src func args) = 1000)
  /\ (forall op, ~ In op [Add; Sub; Mult; Div; FloorDiv; Mod; Pow] ->
        prec_operator op = 0)
  /\ (forall src kind elts, prec (Seq src kind elts) = 0)
  /\ (forall src cls children, prec (Other src cls children) = 0)
  /\ (forall src op l r, prec (BinOp src op l r) = prec_operator op)
  /\ (forall src op operand, prec (UnaryOp src op operand) = prec_unaryop op)
  /\ (forall n, In (prec n) [0; 300; 400; 500; 700; 800; 1000]).
Proof.
  repeat match goal with |- _ /\ _ => split end; try reflexivity.
  - intros op Hnot. destruct op; try reflexivity; exfalso; apply Hnot; simpl; tauto.
  - intros [ | | | ? [] ? | ? [] ? ? | | ]; simpl; tauto.
Qed.

Lemma prec_table_witness :
  ~ In MatMult [Add; Sub; Mult; Div; FloorDiv; Mod; Pow]
  /\ prec_operator MatMult = 0.
Proof.
  assert (H : ~ In MatMult [Add; Sub; Mult; Div; FloorDiv; Mod; Pow]).
  { simpl. intros H. repeat (destruct H as [H|H]; [discriminate H|]). exact H. }
  split; [exact H|].
  destruct prec_table as (_ & _ & _ & _ & _ & _ & _ & _ & Hother & _).
  exact (Hother MatMult H).
Defined.

(** ** Atoms *)

Section Atoms.

Variable sy : Sympy.

(** C9 (as amended).  A [Name] translates to its identifier as it is.  A
    [Num] translates to [str] of the number it carries: the decimal numeral
    of an int (the text kept for a float), which is the source text of the
    literal exactly when the literal was written that way. *)
Theorem visit_atoms :
  (forall src id, visit sy (Name src id) = Ok (VStr id))
  /\ (forall src z, visit sy (Num src (PyInt z)) = Ok (VStr (Str.of_Z z)))
  /\ (forall src repr, visit sy (Num src (PyFloat repr)) = Ok (VStr repr))
  /\ (forall src z,
        visit sy (Num src (PyInt z)) = Ok (VStr (get_text (Num src (PyInt z))))
        <-> src = Str.of_Z z).
Proof.
  repeat split; try reflexivity.
  - cbn. intros [= H]. now symmetry.
  - intros ->. reflexivity.
Qed.

End Atoms.

(** C9 (as stated) fails on the literal [0x10]: the node carries the int 16
    and the translation is [16], not the text of the literal. *)
Lemma visit_Num_not_verbatim :
  visit demo_sympy tree_hex = Ok (VStr "16")
  /\ get_text tree_hex = "0x10"
  /\ visit demo_sympy tree_hex <> Ok (VStr (get_text tree_hex)).
Proof. repeat split. vm_compute. discriminate. Qed.

(** ** Binary operations *)

Section BinaryOperations.

Variable sy : Sympy.

Lemma wrap_length (s : string) :
  String.length (wrap s) = (String.length s + 13)%nat.
Proof. unfold wrap. rewrite !StrFacts.length_app. simpl. lia. Qed.

Lemma wrap_neq (s : string) : wrap s <> s.
Proof. intros H. apply (f_equal String.length) in H. rewrite wrap_length in H. lia. Qed.

(** The grouped form of a child: wrapped when the test holds, else as it is. *)
Lemma grouped_cases (b : bool) (v : pyval) :
  let g := fmt (if b then VStr (wrap (fmt v)) else v) in
  (g = wrap (fmt v) <-> b = true) /\ (g = fmt v <-> b = false).
Proof.
  destruct b; simpl; repeat split; auto; try discriminate.
  - intros H. now apply wrap_neq in H.
  - intros H. symmetry in H. now apply wrap_neq in H.
Qed.

Lemma groups_right_iff (op : operator) (r : node) :
  groups_right op r = true <->
  prec_operator op > prec r \/ (op = Sub /\ prec r = prec_operator op).
Proof.
  unfold groups_right.
  rewrite orb_true_iff, andb_true_iff, Z.gtb_gt, Z.eqb_eq.
  split; (intros [H | [H1 H2]]; [left; exact H | right]).
  - destruct op; try discriminate. split; [reflexivity | now symmetry].
  - subst op. split; [reflexivity | now symmetry].
Qed.

Lemma visit_BinOp_eq (src : string) (op : operator) (l r : node) (vl vr : pyval) :
  visit sy l = Ok vl -> visit sy r = Ok vr ->
  visit sy (BinOp src op l r) =
  let left := fmt (if prec_operator op >? prec l then VStr (wrap (fmt vl)) else vl) in
  let right := fmt (if groups_right op r then VStr (wrap (fmt vr)) else vr) in
  Ok (VStr
    match op with
    | Div => "\frac{" ++ fmt vl ++ "}{" ++ fmt vr ++ "}"
    | FloorDiv => "\left\lfloor\frac{" ++ fmt vl ++ "}{" ++ fmt vr ++ "}\right\rfloor"
    | Pow => "(" ++ left ++ ")^{" ++ fmt vr ++ "}"
    | _ => left ++ fmt (visit_operator op) ++ right
    end).
Proof.
  intros Hl Hr. cbn [visit]. unfold visit_BinOp. rewrite Hl, Hr. cbn [bind].
  destruct op; reflexivity.
Qed.

(** C1.  In a [BinOp] the grouped form of the left child is the wrapped
    translation iff the operator binds tighter than the child, that of the
    right child iff the operator binds tighter or the operator is [Sub] and
    binds as tight as the child; the rendering puts the operator sign
    between the two grouped forms ([Pow] takes the grouped left, [Div] and
    [FloorDiv] take neither).  So [3-(1+2)/5] comes out as
    [3-\frac{1+2}{5}], which is not the rendering of [(3-1+2)/5]. *)
Theorem visit_BinOp_grouping :
  (forall (src : string) (op : operator) (l r : node) (vl vr : pyval),
      visit sy l = Ok vl -> visit sy r = Ok vr ->
      exists left right : string,
        (left = wrap (fmt vl) <-> prec_operator op > prec l)
        /\ (left = fmt vl <-> prec_operator op <= prec l)
        /\ (right = wrap (fmt vr) <->
              prec_operator op > prec r \/ (op = Sub /\ prec r = prec_operator op))
        /\ (right = fmt vr <->
              ~ (prec_operator op > prec r \/ (op = Sub /\ prec r = prec_operator op)))
        /\ visit sy (BinOp src op l r) =
           Ok (VStr
             match op with
             | Div => "\frac{" ++ fmt vl ++ "}{" ++ fmt vr ++ "}"
             | FloorDiv =>
                 "\left\lfloor\frac{" ++ fmt vl ++ "}{" ++ fmt vr ++ "}\right\rfloor"
             | Pow => "(" ++ left ++ ")^{" ++ fmt vr ++ "}"
             | _ => left ++ fmt (visit_operator op) ++ right
             end))
  /\ py2tex sy tree_3_minus_quot = Ok "3-\frac{1+2}{5}"
  /\ py2tex sy tree_quot_of_sum = Ok "\frac{3-1+2}{5}"
  /\ py2tex sy tree_3_minus_quot <> py2tex sy tree_quot_of_sum.
Proof.
  split; [|repeat split; vm_compute; discriminate].
  intros src op l r vl vr Hl Hr.
  pose proof (grouped_cases (prec_operator op >? prec l) vl) as [Hw Hp].
  pose proof (grouped_cases (groups_right op r) vr) as [Hw' Hp'].
  cbv zeta in Hw, Hp, Hw', Hp'.
  exists (fmt (if prec_operator op >? prec l then VStr (wrap (fmt vl)) else vl)),
         (fmt (if groups_right op r then VStr (wrap (fmt vr)) else vr)).
  split; [|split; [|split; [|split]]];
    [..| exact (visit_BinOp_eq src op l r vl vr Hl Hr)].
  - rewrite Hw. apply Z.gtb_gt.
  - rewrite Hp, Z.gtb_ltb, Z.ltb_ge. reflexivity.
  - rewrite Hw'. apply groups_right_iff.
  - rewrite Hp', <- groups_right_iff. now destruct (groups_right op r).
Qed.

(** C4.  [Div] renders as [\frac{left}{right}] and [FloorDiv] as that
    fraction between floor brackets, both from the translations of the
    children as they are, whatever the children's precedences. *)
Theorem visit_Div_FloorDiv (src : string) (l r : node) (vl vr : pyval) :
  visit sy l = Ok vl -> visit sy r = Ok vr ->
  visit sy (BinOp src Div l r)
    = Ok (VStr ("\frac{" ++ fmt vl ++ "}{" ++ fmt vr ++ "}"))
  /\ visit sy (BinOp src FloorDiv l r)
    = Ok (VStr ("\left\lfloor\frac{" ++ fmt vl ++ "}{" ++ fmt vr ++ "}\right\rfloor")).
Proof.
  intros Hl Hr. split.
  - now rewrite (visit_BinOp_eq src Div l r vl vr).
  - now rewrite (visit_BinOp_eq src FloorDiv l r vl vr).
Qed.

End BinaryOperations.

(** [3-(1+2)] against [3-1+2]: the right operand of the subtraction binds
    as tight as the subtraction and is wrapped. *)
Lemma visit_BinOp_grouping_witness :
  exists left right : string,
    (right = wrap "1+2" <->
       prec_operator Sub > prec (BinOp "1+2" Add (int 1) (int 2))
       \/ (Sub = Sub /\ prec (BinOp "1+2" Add (int 1) (int 2)) = prec_operator Sub))
    /\ visit demo_sympy (BinOp "3-(1+2)" Sub (int 3) (BinOp "1+2" Add (int 1) (int 2)))
       = Ok (VStr (left ++ "-" ++ right))
    /\ left = "3" /\ right = "\left(1+2\right)".
Proof.
  destruct (proj1 (visit_BinOp_grouping demo_sympy) "3-(1+2)" Sub (int 3)
              (BinOp "1+2" Add (int 1) (int 2)) (VStr "3") (VStr "1+2")
              eq_refl eq_refl)
    as (left & right & Hl & Hl' & Hr & Hr' & Hv).
  exists left, right. split; [exact Hr|]. split; [exact Hv|]. split.
  - apply Hl'. vm_compute. discriminate.
  - apply Hr. right. split; reflexivity.
Defined.

(** [(1+2)/5] and [(1+2)//5]: the sum binds looser than the division and
    is not wrapped. *)
Lemma visit_Div_FloorDiv_witness :
  visit demo_sympy (BinOp "(1+2)/5" Div (BinOp "1+2" Add (int 1) (int 2)) (int 5))
    = Ok (VStr "\frac{1+2}{5}")
  /\ visit demo_sympy (BinOp "(1+2)//5" FloorDiv (BinOp "1+2" Add (int 1) (int 2)) (int 5))
    = Ok (VStr "\left\lfloor\frac{1+2}{5}\right\rfloor").
Proof.
  exact (visit_Div_FloorDiv demo_sympy "(1+2)/5" (BinOp "1+2" Add (int 1) (int 2))
           (int 5) (VStr "1+2") (VStr "5") eq_refl eq_refl).
Defined.

(** ** Calls with a rendering of their own *)

Section SpecialCalls.

Variable sy : Sympy.

Lemma visit_all_Forall2 (args : list node) (vs : list pyval) :
  Forall2 (fun a v => visit sy a = Ok v) args vs ->
  visit_all (visit sy) args = Ok vs.
Proof.
  induction 1 as [|a v args vs Ha _ IH]; [reflexivity|].
  cbn [visit_all]. fold (visit_all (visit sy)). rewrite Ha, IH. reflexivity.
Qed.

Lemma all_strings_map (ss : list string) : all_strings (map VStr ss) = Some ss.
Proof. induction ss as [|s ss IH]; simpl; [reflexivity | now rewrite IH]. Qed.

Lemma Forall2_strings (args : list node) (ss : list string) :
  Forall2 (fun a s => visit sy a = Ok (VStr s)) args ss ->
  Forall2 (fun a v => visit sy a = Ok v) args (map VStr ss).
Proof. induction 1; constructor; auto. Qed.

Lemma visit_sequence_eq (f : string) (args : list node) (ss : list string) :
  f = "fibonacci" \/ f = "lucas" ->
  Forall2 (fun a s => visit sy a = Ok (VStr s)) args ss ->
  forall src fsrc,
    visit sy (Call src (Name fsrc f) args) =
    Ok (VStr ((if (f =? "fibonacci")%string then "F_{" else "L_{")
              ++ Str.join ", " ss ++ "}")).
Proof.
  intros Hf Hargs src fsrc. cbn [visit]. unfold visit_Call. cbn [visit bind is_str].
  replace ((f =? "Sum")%string || (f =? "Product")%string) with false
    by (destruct Hf; subst f; reflexivity).
  replace ((f =? "fibonacci")%string || (f =? "lucas")%string) with true
    by (destruct Hf; subst f; reflexivity).
  unfold visit_sequence.
  rewrite (visit_all_Forall2 _ _ (Forall2_strings _ _ Hargs)). cbn [bind].
  rewrite all_strings_map. cbn [is_str].
  destruct Hf; subst f; reflexivity.
Qed.

(** C3.  A call of [fibonacci] translates to [F_{args}] and a call of
    [lucas] to [L_{args}], where [args] joins the translations of the
    arguments with a comma and a space; [fibonacci(n)] gives [F_{n}] and
    [lucas(n)] gives [L_{n}]. *)
Theorem visit_fibonacci_lucas :
  (forall (src fsrc : string) (args : list node) (ss : list string),
      Forall2 (fun a s => visit sy a = Ok (VStr s)) args ss ->
      visit sy (Call src (Name fsrc "fibonacci") args)
        = Ok (VStr ("F_{" ++ Str.join ", " ss ++ "}"))
      /\ visit sy (Call src (Name fsrc "lucas") args)
        = Ok (VStr ("L_{" ++ Str.join ", " ss ++ "}")))
  /\ visit sy tree_fibonacci = Ok (VStr "F_{n}")
  /\ visit sy tree_lucas = Ok (VStr "L_{n}").
Proof.
  assert (Hgen : forall (src fsrc : string) (args : list node) (ss : list string),
      Forall2 (fun a s => visit sy a = Ok (VStr s)) args ss ->
      visit sy (Call src (Name fsrc "fibonacci") args)
        = Ok (VStr ("F_{" ++ Str.join ", " ss ++ "}"))
      /\ visit sy (Call src (Name fsrc "lucas") args)
        = Ok (VStr ("L_{" ++ Str.join ", " ss ++ "}"))).
  { intros src fsrc args ss Hargs. split.
    - apply (visit_sequence_eq "fibonacci" args ss); auto.
    - apply (visit_sequence_eq "lucas" args ss); auto. }
  split; [exact Hgen|].
  assert (Hn : Forall2 (fun a s => visit sy a = Ok (VStr s)) [ident "n"] ["n"])
    by (repeat constructor).
  split; [exact (proj1 (Hgen _ _ _ _ Hn)) | exact (proj2 (Hgen _ _ _ _ Hn))].
Qed.

Lemma visit_SumProduct_eq
  (src fsrc f bsrc : string) (kind : seqkind) (body i lo hi : node) (rest : list node)
  (vb vi vlo vhi : pyval) (sv : sval sy) (b : bool) :
  f = "Sum" \/ f = "Product" ->
  visit sy body = Ok vb ->
  sympify sy (get_text body) = Ok sv -> is_Add sy sv = Ok b ->
  visit sy i = Ok vi -> visit sy lo = Ok vlo -> visit sy hi = Ok vhi ->
  visit sy (Call src (Name fsrc f) (body :: Seq bsrc kind [i; lo; hi] :: rest)) =
  Ok (VStr ("\" ++ (if (f =? "Sum")%string then "sum_" else "prod_")
            ++ " {" ++ fmt vi ++ "=" ++ fmt vlo ++ "}^{" ++ fmt vhi ++ "} "
            ++ (if b then wrap (fmt vb) else fmt vb))).
Proof.
  intros Hf Hb Hsv Hadd Hi Hlo Hhi.
  cbn [visit]. unfold visit_Call. cbn [visit bind is_str].
  replace ((f =? "Sum")%string || (f =? "Product")%string) with true
    by (destruct Hf; subst f; reflexivity).
  unfold visit_SumProduct, unpack3.
  rewrite Hb; cbn [bind]. rewrite Hsv; cbn [bind]. rewrite Hadd; cbn [bind].
  rewrite Hi; cbn [bind]. rewrite Hlo; cbn [bind]. rewrite Hhi; cbn [bind is_str].
  destruct b; reflexivity.
Qed.

(** C2 (as amended).  A call of [Sum] with the body as first argument and
    a sequence (index, lower, upper) as second translates to
    [\sum_ {index=lower}^{upper} body], with a space between the underscore
    and the brace, a call of [Product] to [\prod_ {index=lower}^{upper} body];
    the body is wrapped in [\left(...\right)] iff the evaluator finds the
    source text of the body additive.  [Sum(i+k, (i, 1, k))] gives
    [\sum_ {i=1}^{k} \left(i+k\right)] and [Sum(i*k, (i, 1, k))] gives
    [\sum_ {i=1}^{k} i k]. *)
Theorem visit_Sum_Product :
  (forall (src fsrc bsrc : string) (kind : seqkind) (body i lo hi : node)
          (rest : list node) (vb vi vlo vhi : pyval) (sv : sval sy) (b : bool),
      visit sy body = Ok vb ->
      sympify sy (get_text body) = Ok sv -> is_Add sy sv = Ok b ->
      visit sy i = Ok vi -> visit sy lo = Ok vlo -> visit sy hi = Ok vhi ->
      visit sy (Call src (Name fsrc "Sum") (body :: Seq bsrc kind [i; lo; hi] :: rest))
        = Ok (VStr ("\sum_ {" ++ fmt vi ++ "=" ++ fmt vlo ++ "}^{" ++ fmt vhi ++ "} "
                    ++ (if b then wrap (fmt vb) else fmt vb)))
      /\ visit sy (Call src (Name fsrc "Product") (body :: Seq bsrc kind [i; lo; hi] :: rest))
        = Ok (VStr ("\prod_ {" ++ fmt vi ++ "=" ++ fmt vlo ++ "}^{" ++ fmt vhi ++ "} "
                    ++ (if b then wrap (fmt vb) else fmt vb))))
  /\ (forall sv, sympify sy "i+k" = Ok sv -> is_Add sy sv = Ok true ->
        visit sy tree_sum_add = Ok (VStr "\sum_ {i=1}^{k} \left(i+k\right)"))
  /\ (forall sv, sympify sy "i*k" = Ok sv -> is_Add sy sv = Ok false ->
        visit sy tree_sum_mult = Ok (VStr "\sum_ {i=1}^{k} i k")).
Proof.
  split; [|split].
  - intros src fsrc bsrc kind body i lo hi rest vb vi vlo vhi sv b Hb Hsv Hadd Hi Hlo Hhi.
    split.
    + rewrite (visit_SumProduct_eq src fsrc "Sum" bsrc kind body i lo hi rest
                 vb vi vlo vhi sv b); auto.
    + rewrite (visit_SumProduct_eq src fsrc "Product" bsrc kind body i lo hi rest
                 vb vi vlo vhi sv b); auto.
  - intros sv Hsv Hadd. unfold tree_sum_add, tree_bounds, ident.
    rewrite (visit_SumProduct_eq _ _ "Sum" _ _ _ _ _ _ _
               (VStr "i+k") (VStr "i") (VStr "1") (VStr "k") sv true);
      auto.
  - intros sv Hsv Hadd. unfold tree_sum_mult, tree_bounds, ident.
    rewrite (visit_SumProduct_eq _ _ "Sum" _ _ _ _ _ _ _
               (VStr "i k") (VStr "i") (VStr "1") (VStr "k") sv false);
      auto.
Qed.

End SpecialCalls.

Lemma visit_fibonacci_lucas_witness :
  visit demo_sympy
    (Call "fibonacci(n, 2)" (ident "fibonacci") [ident "n"; int 2])
  = Ok (VStr "F_{n, 2}").
Proof.
  refine (proj1 (proj1 (visit_fibonacci_lucas demo_sympy)
                   "fibonacci(n, 2)" "fibonacci" [ident "n"; int 2] ["n"; "2"] _)).
  repeat constructor.
Defined.

Lemma visit_Sum_Product_witness :
  visit demo_sympy tree_sum_add = Ok (VStr "\sum_ {i=1}^{k} \left(i+k\right)")
  /\ visit demo_sympy tree_sum_mult = Ok (VStr "\sum_ {i=1}^{k} i k").
Proof.
  destruct (visit_Sum_Product demo_sympy) as (_ & Hadd & Hmult). split.
  - apply (Hadd "i+k"); reflexivity.
  - apply (Hmult "i*k"); reflexivity.
Defined.

(** C2 (as stated) fails on [Sum(i+k, (i, 1, k))]: the translation has a
    space after [\sum_]. *)
Lemma visit_Sum_has_space :
  visit demo_sympy tree_sum_add = Ok (VStr "\sum_ {i=1}^{k} \left(i+k\right)")
  /\ visit demo_sympy tree_sum_add <> Ok (VStr "\sum_{i=1}^{k} \left(i+k\right)").
Proof. split; [reflexivity | vm_compute; discriminate]. Qed.

(** ** Nodes and operators without a method *)

Section Unsupported.

Variable sy : Sympy.

Lemma prec_nonneg (n : node) : 0 <= prec n.
Proof. destruct n as [ | | | ? [] ? | ? [] ? ? | | ]; simpl; lia. Qed.

Lemma generic_visit_eq (children : list node) (vs : list pyval) :
  Forall2 (fun a v => visit sy a = Ok v) children vs ->
  generic_visit (visit sy) children = Ok VNone.
Proof.
  intros H. unfold generic_visit.
  now rewrite (visit_all_Forall2 sy children vs H).
Qed.

(** A tree without calls always translates: to a string, or to [None]. *)
Lemma visit_call_free (n : node) :
  call_free n = true -> exists v, visit sy n = Ok v.
Proof.
  assert (Hall : forall l, Forall (fun n => call_free n = true ->
                                   exists v, visit sy n = Ok v) l ->
                 forallb call_free l = true ->
                 exists vs, Forall2 (fun a v => visit sy a = Ok v) l vs).
  { induction 1 as [|a l Ha _ IH]; cbn [forallb].
    - exists []. constructor.
    - intros [Hca Hcl]%andb_true_iff.
      destruct (Ha Hca) as [v Hv], (IH Hcl) as [vs Hvs].
      exists (v :: vs). now constructor. }
  induction n as [src func args _ _ | src id | src num | src op operand IH
                 | src op l r IHl IHr | src kind elts IH | src cls children IH]
    using node_ind_nested; cbn [call_free]; intros Hcf.
  - discriminate.
  - eexists. reflexivity.
  - eexists. reflexivity.
  - destruct (IH Hcf) as [v Hv]. cbn [visit]. unfold visit_UnaryOp.
    rewrite Hv. cbn [bind]. destruct (_ >? _); eexists; reflexivity.
  - apply andb_true_iff in Hcf as [Hcl Hcr].
    destruct (IHl Hcl) as [vl Hl], (IHr Hcr) as [vr Hr].
    rewrite (visit_BinOp_eq sy src op l r vl vr Hl Hr). eexists. reflexivity.
  - destruct (Hall elts IH Hcf) as [vs Hvs].
    exists VNone. exact (generic_visit_eq elts vs Hvs).
  - destruct (Hall children IH Hcf) as [vs Hvs].
    exists VNone. exact (generic_visit_eq children vs Hvs).
Qed.

End Unsupported.

(** ** Placeholder names *)

Module Dummy.

Import StrFacts.

Lemma to_uint_nonnil (n : nat) : Nat.to_uint n <> Decimal.Nil.
Proof.
  rewrite <- (DecimalNat.Unsigned.of_to n) at 1.
  rewrite DecimalNat.Unsigned.to_of. unfold Decimal.unorm.
  destruct (Decimal.nzhead (Nat.to_uint n)); discriminate.
Qed.

Lemma of_nat_inj (i j : nat) : Str.of_nat i = Str.of_nat j -> i = j.
Proof.
  unfold Str.of_nat. intros H.
  apply (f_equal NilZero.uint_of_string) in H.
  rewrite !NilZero.usu in H by apply to_uint_nonnil.
  injection H as H. now apply DecimalNat.Unsigned.to_uint_inj.
Qed.

Lemma dummy_name_inj (i j : nat) : dummy_name i = dummy_name j -> i = j.
Proof. unfold dummy_name. intros H%app_inv_head. now apply of_nat_inj. Qed.






End Dummy.

(** ** The generic call: placeholders and their replacement *)

Section GenericCall.

Variable sy : Sympy.
Variable visitor : node -> res pyval.

Lemma keys_dict_set_fresh (k : string) (v : pyval) (r : list (string * pyval)) :
  ~ In k (keys r) -> keys (dict_set k v r) = (keys r ++ [k])%list.
Proof.
  induction r as [|[k' v'] r IH]; [reflexivity|].
  cbn [keys map fst In dict_set]. intros Hnot.
  destruct (String.eqb_spec k' k) as [->|Hne]; [tauto|].
  cbn [map fst app]. f_equal. apply IH. tauto.
Qed.

Lemma expr_positions_bounds (args : list node) (i p : nat) :
  In p (expr_positions sy args i) -> (i <= p < i + List.length args)%nat.
Proof.
  revert i. induction args as [|a args IH]; intros i; cbn [expr_positions]; [contradiction|].
  destruct (sympify sy (get_text a)) as [v|e]; [|contradiction].
  destruct (is_Expr sy v); cbn [In List.length].
  - intros [<-|H]; [lia|]. apply IH in H. lia.
  - intros H. apply IH in H. lia.
Qed.

Lemma expr_positions_NoDup (args : list node) (i : nat) :
  NoDup (expr_positions sy args i).
Proof.
  revert i. induction args as [|a args IH]; intros i; cbn [expr_positions];
    [constructor|].
  destruct (sympify sy (get_text a)) as [v|e]; [|constructor].
  destruct (is_Expr sy v); [|apply IH].
  constructor; [|apply IH].
  intros H%expr_positions_bounds. lia.
Qed.

Lemma dummify_cons (arg : node) (args : list node)
  (d0 : list string) (r0 : list (string * pyval)) :
  dummify sy visitor (arg :: args) d0 r0 =
  (sympified_arg <- sympify sy (get_text arg) ;;
   if is_Expr sy sympified_arg then
     our_latex_arg <- visitor arg ;;
     dummify sy visitor args (d0 ++ [dummy_name (List.length d0)])%list
       (dict_set (dummy_name (List.length d0)) our_latex_arg r0)
   else dummify sy visitor args (d0 ++ [sstr sy sympified_arg])%list r0).
Proof. reflexivity. Qed.

(** What the loop leaves in [replacements]: one placeholder for each
    argument that is an [Expr], named after the position of the argument. *)
Lemma dummify_keys (args : list node) :
  forall (d0 : list string) (r0 : list (string * pyval))
         (d : list string) (r : list (string * pyval)),
    dummify sy visitor args d0 r0 = Ok (d, r) ->
    (forall k, In k (keys r0) -> exists i, (i < List.length d0)%nat /\ k = dummy_name i) ->
    keys r = (keys r0 ++ map dummy_name (expr_positions sy args (List.length d0)))%list
    /\ List.length d = (List.length d0 + List.length args)%nat.
Proof.
  induction args as [|a args IH]; intros d0 r0 d r Hrun Hinv.
  - injection Hrun as <- <-. cbn. rewrite app_nil_r. split; [reflexivity | lia].
  - rewrite dummify_cons in Hrun. cbn [expr_positions].
    destruct (sympify sy (get_text a)) as [v|e]; [cbn [bind] in Hrun | discriminate].
    destruct (is_Expr sy v).
    + destruct (visitor a) as [lat|e]; [cbn [bind] in Hrun | discriminate].
      assert (Hfresh : ~ In (dummy_name (List.length d0)) (keys r0)).
      { intros (i & Hi & Heq)%Hinv. apply Dummy.dummy_name_inj in Heq. lia. }
      apply IH in Hrun.
      * rewrite length_app in Hrun. cbn [List.length] in Hrun.
        rewrite Nat.add_1_r in Hrun. destruct Hrun as [Hk Hl].
        rewrite Hk, keys_dict_set_fresh, <- app_assoc by exact Hfresh.
        split; [reflexivity | cbn [List.length]; lia].
      * intros k. rewrite keys_dict_set_fresh by exact Hfresh.
        rewrite length_app, in_app_iff. cbn [List.length In].
        intros [Hin | [<- | []]].
        -- destruct (Hinv k Hin) as (i & Hi & ->). exists i. split; [lia | reflexivity].
        -- exists (List.length d0). split; [lia | reflexivity].
    + apply IH in Hrun.
      * rewrite length_app in Hrun. cbn [List.length] in Hrun.
        rewrite Nat.add_1_r in Hrun. destruct Hrun as [Hk Hl].
        split; [exact Hk | cbn [List.length]; lia].
      * intros k Hin. destruct (Hinv k Hin) as (i & Hi & ->).
        exists i. rewrite length_app. split; [lia | reflexivity].
Qed.

Lemma dummify_keys_start (args : list node)
  (d : list string) (r : list (string * pyval)) :
  dummify sy visitor args [] [] = Ok (d, r) ->
  keys r = map dummy_name (expr_positions sy args 0).
Proof.
  intros H. apply dummify_keys in H; [tauto|]. intros k [].
Qed.

End GenericCall.

Section Placeholders.

Variable sy : Sympy.

Lemma dummify_names
  (args : list node) (d : list string) (r : list (string * pyval)) :
  dummify sy (visit sy) args [] [] = Ok (d, r) ->
  keys r = map dummy_name (expr_positions sy args 0)
  /\ NoDup (keys r)
  /\ (forall k, In k (keys r) ->
        exists i, (i < List.length args)%nat /\ k = dummy_name i).
Proof.
  intros Hrun. pose proof (dummify_keys_start sy (visit sy) args d r Hrun) as Hk.
  split; [exact Hk|]. rewrite Hk. split.
  - apply Injective_map_NoDup.
    + intros i j. apply Dummy.dummy_name_inj.
    + apply expr_positions_NoDup.
  - intros k (i & <- & Hi)%in_map_iff.
    apply expr_positions_bounds in Hi. exists i. split; [lia | reflexivity].
Qed.

(** C7 (as amended).  The placeholders of one call translation are
    [py2texdummyvar] followed by the position of the argument, one for each
    argument the evaluator parses to an [Expr]; they are pairwise distinct.
    (Such a name is an identifier like any other: nothing keeps the input
    from using it.) *)
Theorem placeholders_distinct
  (args : list node) (d : list string) (r : list (string * pyval)) :
  dummify sy (visit sy) args [] [] = Ok (d, r) ->
  keys r = map dummy_name (expr_positions sy args 0)
  /\ NoDup (keys r)
  /\ (forall k, In k (keys r) ->
        exists i, (i < List.length args)%nat
                  /\ k = "py2texdummyvar" ++ Str.of_nat i).
Proof. exact (dummify_names args d r). Qed.

Lemma substitute_cons (dummy l : string) (r : list (string * pyval)) (s : string) :
  substitute ((dummy, VStr l) :: r) s = substitute r (Str.replace dummy l s).
Proof. reflexivity. Qed.

Lemma visit_generic_eq (src : string) (func : node) (args : list node)
  (f : pyval) (d : list string) (r : list (string * pyval))
  (sv : sval sy) (tex : string) :
  visit sy func = Ok f ->
  is_str f "Sum" || is_str f "Product" = false ->
  is_str f "fibonacci" || is_str f "lucas" = false ->
  dummify sy (visit sy) args [] [] = Ok (d, r) ->
  sympify sy (get_text func ++ "(" ++ Str.join "," d ++ ")") = Ok sv ->
  latex sy sv = Ok tex ->
  visit sy (Call src func args) = (our_latex <- substitute r tex ;; Ok (VStr our_latex)).
Proof.
  intros Hf Hs Hq Hd Hsv Htex. cbn [visit]. unfold visit_Call.
  rewrite Hf. cbn [bind]. rewrite Hs, Hq. unfold visit_generic.
  rewrite Hd. cbn [bind]. rewrite Hsv. cbn [bind]. rewrite Htex. reflexivity.
Qed.


End Placeholders.

Lemma placeholders_distinct_witness :
  NoDup ["py2texdummyvar0"; "py2texdummyvar2"].
Proof.
  exact (proj1 (proj2
    (placeholders_distinct demo_sympy
       [ident "x"; tree_tuple; ident "y"]
       ["py2texdummyvar0"; "(0,)"; "py2texdummyvar2"]
       [("py2texdummyvar0", VStr "x"); ("py2texdummyvar2", VStr "y")]
       eq_refl))).
Defined.

(** C7 (as stated) fails on [f(py2texdummyvar0)]: the placeholder made for
    the argument is the identifier the argument consists of.  In
    [f(py2texdummyvar1, y)] the clash shows: the first argument comes out
    as [y]. *)
Lemma placeholder_meets_identifier :
  dummify demo_sympy (visit demo_sympy) [ident "py2texdummyvar0"] [] []
    = Ok (["py2texdummyvar0"], [("py2texdummyvar0", VStr "py2texdummyvar0")])
  /\ In "py2texdummyvar0" (identifiers tree_call_dummy)
  /\ visit demo_sympy tree_call_clash = Ok (VStr "f(y,y)").
Proof. repeat split. simpl. tauto. Qed.



(** * Further properties of the translator *)

(** ** Unary operations and grouping *)

Section Grouping.

Variable sy : Sympy.

Lemma binds_tightly_prec (n : node) :
  binds_tightly n = true <-> 800 <= prec n.
Proof.
  destruct n as [ | | | ? [] ? | ? [] ? ? | | ]; simpl; split;
    (lia || discriminate || reflexivity).
Qed.

(** [visit_UnaryOp] puts the sign, a space and the operand; the operand is
    wrapped exactly when it is not a name, a number, a call or another
    unary operation. *)
Theorem visit_UnaryOp_rendering
  (src : string) (op : unaryop) (operand : node) (v : pyval) :
  visit sy operand = Ok v ->
  visit sy (UnaryOp src op operand) =
  Ok (VStr (fmt (visit_unaryop op) ++ " "
            ++ (if binds_tightly operand then fmt v else wrap (fmt v)))).
Proof.
  intros Hv. cbn [visit]. unfold visit_UnaryOp. rewrite Hv. cbn [bind].
  pose proof (binds_tightly_prec operand) as Hb.
  replace (prec_unaryop op) with 800 by (destruct op; reflexivity).
  destruct (binds_tightly operand).
  - destruct (800 >? prec operand) eqn:E; [|reflexivity].
    apply Z.gtb_gt in E. assert (800 <= prec operand) by now apply Hb. lia.
  - destruct (800 >? prec operand) eqn:E; [reflexivity|].
    rewrite Z.gtb_ltb, Z.ltb_ge in E. apply Hb in E. discriminate.
Qed.

(** A name, number, call or unary operation is never grouped as an operand
    of a binary operator: the infix rendering is left, sign, right. *)
Theorem visit_BinOp_tight_operands
  (src : string) (op : operator) (l r : node) (vl vr : pyval) :
  visit sy l = Ok vl -> visit sy r = Ok vr ->
  binds_tightly l = true -> binds_tightly r = true ->
  infix_rendered op = true ->
  visit sy (BinOp src op l r)
  = Ok (VStr (fmt vl ++ fmt (visit_operator op) ++ fmt vr)).
Proof.
  intros Hl Hr Hbl%binds_tightly_prec Hbr%binds_tightly_prec Hop.
  rewrite (visit_BinOp_eq sy src op l r vl vr Hl Hr). cbv zeta.
  assert (Hp : prec_operator op <= 700) by (destruct op; simpl; lia).
  assert (El : (prec_operator op >? prec l) = false)
    by (rewrite Z.gtb_ltb; apply Z.ltb_ge; lia).
  assert (Er : groups_right op r = false).
  { unfold groups_right. rewrite orb_false_iff, andb_false_iff. split.
    - rewrite Z.gtb_ltb. apply Z.ltb_ge. lia.
    - right. apply Z.eqb_neq. lia. }
  rewrite El, Er. destruct op; try discriminate Hop; reflexivity.
Qed.

(** The operators without a [prec_*] method ([MatMult], the shifts and the
    bitwise operators) never group an operand, whatever it is. *)
Theorem visit_BinOp_no_prec
  (src : string) (op : operator) (l r : node) (vl vr : pyval) :
  visit sy l = Ok vl -> visit sy r = Ok vr ->
  In op [MatMult; LShift; RShift; BitOr; BitXor; BitAnd] ->
  visit sy (BinOp src op l r)
  = Ok (VStr (fmt vl ++ fmt (visit_operator op) ++ fmt vr)).
Proof.
  intros Hl Hr Hop.
  rewrite (visit_BinOp_eq sy src op l r vl vr Hl Hr). cbv zeta.
  pose proof (prec_nonneg l) as Hpl. pose proof (prec_nonneg r) as Hpr.
  assert (H0 : prec_operator op = 0 /\ op <> Sub /\ infix_rendered op = true).
  { simpl in Hop. repeat (destruct Hop as [<-|Hop]; [repeat split; discriminate|]).
    contradiction. }
  destruct H0 as (H0 & HnS & Hinf).
  assert (El : (prec_operator op >? prec l) = false)
    by (rewrite Z.gtb_ltb; apply Z.ltb_ge; lia).
  assert (Er : groups_right op r = false).
  { unfold groups_right. rewrite orb_false_iff, andb_false_iff. split.
    - rewrite Z.gtb_ltb. apply Z.ltb_ge. lia.
    - left. destruct op; try reflexivity. contradiction. }
  rewrite El, Er. destruct op; try discriminate Hinf; reflexivity.
Qed.

Lemma visit_BinOp_raise_left (src : string) (op : operator) (l r : node) (e : pyerr) :
  visit sy l = Raise e -> visit sy (BinOp src op l r) = Raise e.
Proof. intros H. cbn [visit]. unfold visit_BinOp. now rewrite H. Qed.

Lemma visit_BinOp_raise_right
  (src : string) (op : operator) (l r : node) (vl : pyval) (e : pyerr) :
  visit sy l = Ok vl -> visit sy r = Raise e ->
  visit sy (BinOp src op l r) = Raise e.
Proof. intros Hl Hr. cbn [visit]. unfold visit_BinOp. now rewrite Hl, Hr. Qed.

(** Only [Sub] tells a right-nested operation from a left-nested one: for
    every other infix operator, [a op (b op c)] and [(a op b) op c]
    translate alike, errors included. *)
Theorem visit_BinOp_nesting_lost
  (s1 s2 s3 s4 : string) (op : operator) (a b c : node) :
  infix_rendered op = true -> op <> Sub ->
  visit sy (BinOp s1 op a (BinOp s2 op b c))
  = visit sy (BinOp s3 op (BinOp s4 op a b) c).
Proof.
  intros Hinf HnS.
  destruct (visit sy a) as [va|e] eqn:Ha.
  2:{ rewrite (visit_BinOp_raise_left s1 op a _ e Ha).
      symmetry. apply visit_BinOp_raise_left.
      now apply visit_BinOp_raise_left. }
  destruct (visit sy b) as [vb|e] eqn:Hb.
  2:{ rewrite (visit_BinOp_raise_right s1 op a _ va e Ha
                 (visit_BinOp_raise_left s2 op b c e Hb)).
      symmetry. apply visit_BinOp_raise_left.
      now apply (visit_BinOp_raise_right s4 op a b va). }
  destruct (visit sy c) as [vc|e] eqn:Hc.
  2:{ rewrite (visit_BinOp_raise_right s1 op a _ va e Ha
                 (visit_BinOp_raise_right s2 op b c vb e Hb Hc)).
      symmetry.
      pose proof (visit_BinOp_eq sy s4 op a b va vb Ha Hb) as Hin.
      cbv zeta in Hin.
      eapply visit_BinOp_raise_right; [exact Hin | exact Hc]. }
  assert (Hg : forall n, groups_right op n = (prec_operator op >? prec n)).
  { intros n. unfold groups_right. destruct op; try contradiction;
      cbn [andb]; apply orb_false_r. }
  assert (Hirr : (prec_operator op >? prec_operator op) = false)
    by (rewrite Z.gtb_ltb; apply Z.ltb_irrefl).
  pose proof (visit_BinOp_eq sy s2 op b c vb vc Hb Hc) as Hbc.
  pose proof (visit_BinOp_eq sy s4 op a b va vb Ha Hb) as Hab.
  cbv zeta in Hbc, Hab.
  rewrite (visit_BinOp_eq sy s1 op a _ va _ Ha Hbc).
  rewrite (visit_BinOp_eq sy s3 op _ c _ vc Hab Hc).
  cbv zeta. rewrite !Hg. cbn [prec]. rewrite Hirr. cbn [fmt].
  destruct op; try discriminate Hinf; try contradiction;
    f_equal; f_equal; now rewrite !StrFacts.app_assoc.
Qed.

End Grouping.

(** ** What a visit returns *)

(** Taking apart a computation that returned. *)
Ltac bind_inv H :=
  repeat match type of H with
    | bind ?m _ = Ok _ =>
        let E := fresh "E" in
        destruct m eqn:E; cbn [bind] in H; [|discriminate H]
    | (if ?b then _ else _) = Ok _ =>
        let E := fresh "E" in destruct b eqn:E
    | match ?x with _ => _ end = Ok _ =>
        let E := fresh "E" in destruct x eqn:E; try discriminate H
    end.

Section Returns.

Variable sy : Sympy.

Lemma visit_Call_returns_string (func : node) (args : list node) (v : pyval) :
  visit_Call sy (visit sy) func args = Ok v -> exists s, v = VStr s.
Proof.
  unfold visit_Call, visit_SumProduct, visit_sequence, visit_generic.
  intros H. bind_inv H; injection H as <-; eexists; reflexivity.
Qed.

Lemma visit_value_kind (n : node) (v : pyval) :
  visit sy n = Ok v -> (v = VNone <-> has_method n = false).
Proof.
  destruct n as [src func args | src id | src num | src op operand
                | src op l r | src kind elts | src cls children];
    cbn [visit has_method]; intros H.
  - apply visit_Call_returns_string in H as [s ->]. split; discriminate.
  - injection H as <-. split; discriminate.
  - injection H as <-. split; discriminate.
  - unfold visit_UnaryOp in H. bind_inv H; injection H as <-; split; discriminate.
  - unfold visit_BinOp in H. bind_inv H; injection H as <-; split; discriminate.
  - unfold generic_visit in H. bind_inv H. injection H as <-. split; reflexivity.
  - unfold generic_visit in H. bind_inv H. injection H as <-. split; reflexivity.
Qed.

(** [None] comes from the classes without a method and from nowhere else:
    a call, name, number, unary or binary operation that translates at all
    translates to a string. *)
Theorem visit_None_iff (n : node) (v : pyval) :
  visit sy n = Ok v -> (v = VNone <-> has_method n = false).
Proof. exact (visit_value_kind n v). Qed.

End Returns.

Lemma visit_None_iff_witness :
  VNone = VNone <-> has_method tree_bounds = false.
Proof. exact (visit_None_iff demo_sympy tree_bounds VNone eq_refl). Defined.

(** ** Trees without calls *)

Section CallFree.

Lemma visit_all_ext (f g : node -> res pyval) (l : list node) :
  Forall (fun a => f a = g a) l -> visit_all f l = visit_all g l.
Proof.
  induction 1 as [|a l Ha _ IH]; [reflexivity|].
  cbn [visit_all]. fold (visit_all f) (visit_all g). now rewrite Ha, IH.
Qed.

Lemma Forall_call_free (P : node -> Prop) (l : list node) :
  Forall (fun n => call_free n = true -> P n) l ->
  forallb call_free l = true -> Forall P l.
Proof.
  induction 1 as [|a l Ha _ IH]; cbn [forallb]; [constructor|].
  intros [Hca Hcl]%andb_true_iff. constructor; auto.
Qed.

Lemma visit_call_free_ext (sy1 sy2 : Sympy) (n : node) :
  call_free n = true -> visit sy1 n = visit sy2 n.
Proof.
  induction n as [src func args _ _ | src id | src num | src op operand IH
                 | src op l r IHl IHr | src kind elts IH | src cls children IH]
    using node_ind_nested; cbn [call_free]; intros Hcf.
  - discriminate.
  - reflexivity.
  - reflexivity.
  - cbn [visit]. unfold visit_UnaryOp. now rewrite (IH Hcf).
  - apply andb_true_iff in Hcf as [Hcl Hcr].
    cbn [visit]. unfold visit_BinOp. now rewrite (IHl Hcl), (IHr Hcr).
  - cbn [visit]. unfold generic_visit.
    now rewrite (visit_all_ext (visit sy1) (visit sy2) elts
                   (Forall_call_free _ _ IH Hcf)).
  - cbn [visit]. unfold generic_visit.
    now rewrite (visit_all_ext (visit sy1) (visit sy2) children
                   (Forall_call_free _ _ IH Hcf)).
Qed.

Lemma visit_call_free_const (n : node) :
  call_free n = true -> exists v, forall sy, visit sy n = Ok v.
Proof.
  intros Hcf. destruct (visit_call_free demo_sympy n Hcf) as [v Hv].
  exists v. intros sy. now rewrite (visit_call_free_ext sy demo_sympy n Hcf).
Qed.

(** A tree without calls translates without an exception, and to the same
    value whatever the evaluator: [sympy] is consulted for calls only. *)
Theorem visit_call_free_evaluator (n : node) :
  call_free n = true -> exists v, forall sy, visit sy n = Ok v.
Proof. exact (visit_call_free_const n). Qed.

(** On a tree without calls [py2tex] returns the post-processed fragment;
    it fails only when the root is of a class without a method, and then
    with the [AttributeError] of [None.replace]. *)
Theorem py2tex_call_free (n : node) :
  call_free n = true ->
  if has_method n
  then exists s, forall sy, visit sy n = Ok (VStr s) /\ py2tex sy n = Ok (cleanup s)
  else forall sy, py2tex sy n = Raise AttributeError.
Proof.
  intros Hcf. destruct (visit_call_free_const n Hcf) as [v Hv].
  pose proof (visit_value_kind demo_sympy n v (Hv demo_sympy)) as Hnone.
  destruct (has_method n).
  - destruct v as [|s]; [discriminate (proj1 Hnone eq_refl)|].
    exists s. intros sy. unfold py2tex. now rewrite Hv.
  - assert (v = VNone) as -> by now apply Hnone.
    intros sy. unfold py2tex. now rewrite Hv.
Qed.

End CallFree.

Lemma visit_call_free_evaluator_witness :
  exists v, forall sy, visit sy tree_3_minus_quot = Ok v.
Proof. exact (visit_call_free_evaluator tree_3_minus_quot eq_refl). Defined.

Lemma py2tex_call_free_witness :
  exists s, forall sy,
    visit sy tree_pow_pow = Ok (VStr s) /\ py2tex sy tree_pow_pow = Ok (cleanup s).
Proof. exact (py2tex_call_free tree_pow_pow eq_refl). Defined.

(** ** Calls that cannot be rendered *)

Section CallErrors.

Variable sy : Sympy.

Lemma unpack3_wrong_length (elts : list node) (vs : list pyval) :
  Forall2 (fun a v => visit sy a = Ok v) elts vs ->
  List.length elts <> 3%nat ->
  unpack3 (visit sy) elts = Raise ValueError.
Proof.
  intros Hall Hlen.
  pose proof (visit_all_Forall2 sy elts vs Hall) as Hva.
  destruct Hall as [|a va elts vs Ha Hall]; [reflexivity|].
  destruct Hall as [|b vb elts vs Hb Hall];
    [unfold unpack3; now rewrite Hva|].
  destruct Hall as [|c vc elts vs Hc Hall];
    [unfold unpack3; now rewrite Hva|].
  destruct Hall as [|d vd elts vs Hd Hall]; [now contradiction Hlen|].
  unfold unpack3. now rewrite Ha, Hb, Hc, Hd.
Qed.

(** A [Sum] or [Product] call that has not the expected shape raises:
    [IndexError] without a first or without a second argument,
    [AttributeError] when the second argument has no [elts],
    [ValueError] when it has other than three elements. *)
Theorem visit_Sum_Product_errors (src fsrc f : string) :
  f = "Sum" \/ f = "Product" ->
  visit sy (Call src (Name fsrc f) []) = Raise IndexError
  /\ (forall body vb sv b,
        visit sy body = Ok vb ->
        sympify sy (get_text body) = Ok sv -> is_Add sy sv = Ok b ->
        visit sy (Call src (Name fsrc f) [body]) = Raise IndexError
        /\ (forall bounds rest,
              has_elts bounds = false ->
              visit sy (Call src (Name fsrc f) (body :: bounds :: rest))
              = Raise AttributeError)
        /\ (forall bsrc kind elts vs rest,
              Forall2 (fun a v => visit sy a = Ok v) elts vs ->
              List.length elts <> 3%nat ->
              visit sy (Call src (Name fsrc f) (body :: Seq bsrc kind elts :: rest))
              = Raise ValueError)).
Proof.
  intros Hf.
  assert (Hd : forall args,
    visit sy (Call src (Name fsrc f) args) = visit_SumProduct sy (visit sy) (VStr f) args).
  { intros args. cbn [visit]. unfold visit_Call. cbn [visit bind is_str].
    now replace ((f =? "Sum")%string || (f =? "Product")%string) with true
      by (destruct Hf; subst f; reflexivity). }
  split; [now rewrite Hd|].
  intros body vb sv b Hb Hsv Hadd. repeat split.
  - rewrite Hd. unfold visit_SumProduct.
    rewrite Hb; cbn [bind]. rewrite Hsv; cbn [bind]. now rewrite Hadd.
  - intros bounds rest Hno. rewrite Hd. unfold visit_SumProduct.
    rewrite Hb; cbn [bind]. rewrite Hsv; cbn [bind]. rewrite Hadd; cbn [bind].
    destruct bounds; try reflexivity.
    discriminate Hno.
  - intros bsrc kind elts vs rest Hall Hlen. rewrite Hd. unfold visit_SumProduct.
    rewrite Hb; cbn [bind]. rewrite Hsv; cbn [bind]. rewrite Hadd; cbn [bind].
    now rewrite (unpack3_wrong_length elts vs Hall Hlen).
Qed.

Lemma all_strings_None (vs : list pyval) :
  In VNone vs -> all_strings vs = None.
Proof.
  induction vs as [|[|s] vs IH]; cbn [In all_strings]; [contradiction | reflexivity |].
  intros [H|H]; [discriminate H | now rewrite IH].
Qed.

(** A [fibonacci] or [lucas] call with an argument that translates to
    [None] raises [TypeError]: [join] takes strings only. *)
Theorem visit_sequence_None_argument
  (src fsrc f : string) (args : list node) (vs : list pyval) :
  f = "fibonacci" \/ f = "lucas" ->
  Forall2 (fun a v => visit sy a = Ok v) args vs ->
  In VNone vs ->
  visit sy (Call src (Name fsrc f) args) = Raise TypeError.
Proof.
  intros Hf Hall Hnone. cbn [visit]. unfold visit_Call. cbn [visit bind is_str].
  replace ((f =? "Sum")%string || (f =? "Product")%string) with false
    by (destruct Hf; subst f; reflexivity).
  replace ((f =? "fibonacci")%string || (f =? "lucas")%string) with true
    by (destruct Hf; subst f; reflexivity).
  unfold visit_sequence. rewrite (visit_all_Forall2 sy args vs Hall). cbn [bind].
  now rewrite (all_strings_None vs Hnone).
Qed.

End CallErrors.

Lemma visit_Sum_Product_errors_witness :
  visit demo_sympy (Call "Sum(i, (i, 1))" (ident "Sum")
                      [ident "i"; Seq "(i, 1)" KTuple [ident "i"; int 1]])
  = Raise ValueError.
Proof.
  refine (proj2 (proj2 (proj2 (visit_Sum_Product_errors demo_sympy
            "Sum(i, (i, 1))" "Sum" "Sum" (or_introl eq_refl))
            (ident "i") (VStr "i") "i" false eq_refl eq_refl eq_refl))
            "(i, 1)" KTuple [ident "i"; int 1] [VStr "i"; VStr "1"] [] _ _).
  - repeat constructor.
  - simpl. lia.
Defined.

Lemma visit_sequence_None_argument_witness :
  visit demo_sympy (Call "fibonacci((i, 1, k))" (ident "fibonacci") [tree_bounds])
  = Raise TypeError.
Proof.
  refine (visit_sequence_None_argument demo_sympy "fibonacci((i, 1, k))"
            "fibonacci" "fibonacci" [tree_bounds] [VNone] (or_introl eq_refl) _ _).
  - repeat constructor.
  - simpl. tauto.
Defined.

(** ** What the generic call records *)

Section Recording.

Variable sy : Sympy.
Variable visitor : node -> res pyval.

Lemma dict_set_fresh (k : string) (v : pyval) (r : list (string * pyval)) :
  ~ In k (keys r) -> dict_set k v r = (r ++ [(k, v)])%list.
Proof.
  induction r as [|[k' v'] r IH]; [reflexivity|].
  cbn [keys map fst In dict_set]. intros Hnot.
  destruct (String.eqb_spec k' k) as [->|Hne]; [tauto|].
  cbn [app]. f_equal. apply IH. tauto.
Qed.

(** The loop appends: one text for each argument, at the argument's
    position, and one pair for each argument that is an [Expr]. *)
Lemma dummify_appends (args : list node) :
  forall (d0 : list string) (r0 : list (string * pyval))
         (d : list string) (r : list (string * pyval)),
    dummify sy visitor args d0 r0 = Ok (d, r) ->
    (forall k, In k (keys r0) -> exists i, (i < List.length d0)%nat /\ k = dummy_name i) ->
    exists d' r',
      d = (d0 ++ d')%list /\ r = (r0 ++ r')%list
      /\ List.length d' = List.length args
      /\ (forall i arg, nth_error args i = Some arg ->
            exists sv, sympify sy (get_text arg) = Ok sv
              /\ if is_Expr sy sv
                 then nth_error d' i = Some (dummy_name (List.length d0 + i))
                      /\ exists v, visitor arg = Ok v
                                   /\ In (dummy_name (List.length d0 + i), v) r'
                 else nth_error d' i = Some (sstr sy sv))
      /\ (forall k v, In (k, v) r' ->
            exists i arg sv,
              nth_error args i = Some arg /\ k = dummy_name (List.length d0 + i)
              /\ sympify sy (get_text arg) = Ok sv /\ is_Expr sy sv = true
              /\ visitor arg = Ok v).
Proof.
  induction args as [|a args IH]; intros d0 r0 d r Hrun Hinv.
  - injection Hrun as <- <-. exists [], []. rewrite !app_nil_r.
    repeat split; try reflexivity.
    + intros [|i] arg; discriminate.
    + intros k v [].
  - rewrite dummify_cons in Hrun.
    destruct (sympify sy (get_text a)) as [sv|e] eqn:Hsv;
      [cbn [bind] in Hrun | discriminate].
    destruct (is_Expr sy sv) eqn:Hex.
    + destruct (visitor a) as [lat|e] eqn:Hlat; [cbn [bind] in Hrun | discriminate].
      assert (Hfresh : ~ In (dummy_name (List.length d0)) (keys r0)).
      { intros (i & Hi & Heq)%Hinv. apply Dummy.dummy_name_inj in Heq. lia. }
      rewrite dict_set_fresh in Hrun by exact Hfresh.
      apply IH in Hrun.
      * destruct Hrun as (d' & r' & -> & -> & Hlen & Hargs & Hpairs).
        rewrite length_app in Hargs, Hpairs. cbn [List.length] in Hargs, Hpairs.
        exists (dummy_name (List.length d0) :: d'),
               ((dummy_name (List.length d0), lat) :: r').
        rewrite <- !app_assoc. cbn [app List.length].
        split; [reflexivity|]. split; [reflexivity|]. split; [now rewrite Hlen|].
        split.
        -- intros [|i] arg Harg; cbn [nth_error] in Harg |- *.
           ++ injection Harg as <-. exists sv. rewrite Hex, Nat.add_0_r.
              split; [exact Hsv|]. split; [reflexivity|].
              exists lat. split; [exact Hlat | now left].
           ++ destruct (Hargs i arg Harg) as (sv' & Hsv' & Hcase).
              exists sv'. split; [exact Hsv'|].
              replace (List.length d0 + S i)%nat with (List.length d0 + 1 + i)%nat by lia.
              destruct (is_Expr sy sv'); [|exact Hcase].
              destruct Hcase as (Hn & v & Hv & Hin).
              split; [exact Hn|]. exists v. split; [exact Hv | now right].
        -- intros k v [[= <- <-]|Hin].
           ++ exists 0%nat, a, sv. rewrite Nat.add_0_r. now repeat split.
           ++ destruct (Hpairs k v Hin) as (i & arg & sv' & Hn & -> & Hrest).
              exists (S i), arg, sv'. split; [exact Hn|].
              split; [f_equal; lia | exact Hrest].
      * intros k. unfold keys. rewrite map_app, length_app, in_app_iff.
        cbn [map fst List.length In]. intros [Hin | [<- | []]].
        -- destruct (Hinv k Hin) as (i & Hi & ->). exists i. split; [lia | reflexivity].
        -- exists (List.length d0). split; [lia | reflexivity].
    + apply IH in Hrun.
      * destruct Hrun as (d' & r' & -> & -> & Hlen & Hargs & Hpairs).
        rewrite length_app in Hargs, Hpairs. cbn [List.length] in Hargs, Hpairs.
        exists (sstr sy sv :: d'), r'.
        rewrite <- !app_assoc. cbn [app List.length].
        split; [reflexivity|]. split; [reflexivity|]. split; [now rewrite Hlen|].
        split.
        -- intros [|i] arg Harg; cbn [nth_error] in Harg |- *.
           ++ injection Harg as <-. exists sv. rewrite Hex. now split.
           ++ destruct (Hargs i arg Harg) as (sv' & Hsv' & Hcase).
              exists sv'. split; [exact Hsv'|].
              replace (List.length d0 + S i)%nat with (List.length d0 + 1 + i)%nat by lia.
              exact Hcase.
        -- intros k v Hin.
           destruct (Hpairs k v Hin) as (i & arg & sv' & Hn & -> & Hrest).
           exists (S i), arg, sv'. split; [exact Hn|].
           split; [f_equal; lia | exact Hrest].
      * intros k Hin. destruct (Hinv k Hin) as (i & Hi & ->).
        exists i. rewrite length_app. split; [lia | reflexivity].
Qed.

End Recording.

Section RecordingVisit.

Variable sy : Sympy.

(** When the loop of the generic call ends, [dummified_args] has one text
    for each argument at the position of the argument: the placeholder
    numbered by the position when the argument is an [Expr], the evaluator's
    own text of the argument when it is not.  [replacements] maps the
    placeholder of each [Expr] argument to the translation of that argument,
    and has nothing else. *)
Theorem dummify_entries
  (args : list node) (d : list string) (r : list (string * pyval)) :
  dummify sy (visit sy) args [] [] = Ok (d, r) ->
  List.length d = List.length args
  /\ (forall i arg, nth_error args i = Some arg ->
        exists sv, sympify sy (get_text arg) = Ok sv
          /\ if is_Expr sy sv
             then nth_error d i = Some (dummy_name i)
                  /\ exists v, visit sy arg = Ok v /\ In (dummy_name i, v) r
             else nth_error d i = Some (sstr sy sv))
  /\ (forall k v, In (k, v) r ->
        exists i arg sv,
          nth_error args i = Some arg /\ k = dummy_name i
          /\ sympify sy (get_text arg) = Ok sv /\ is_Expr sy sv = true
          /\ visit sy arg = Ok v).
Proof.
  intros Hrun. apply dummify_appends in Hrun; [|intros k []].
  destruct Hrun as (d' & r' & -> & -> & Hlen & Hargs & Hpairs).
  cbn [app List.length Nat.add] in *. repeat split; assumption.
Qed.

End RecordingVisit.

Lemma dummify_entries_witness :
  List.length ["py2texdummyvar0"; "(0,)"; "py2texdummyvar2"]
  = List.length [ident "x"; tree_tuple; BinOp "y+1" Add (ident "y") (int 1)]
  /\ In ("py2texdummyvar2", VStr "y+1")
        [("py2texdummyvar0", VStr "x"); ("py2texdummyvar2", VStr "y+1")].
Proof.
  destruct (dummify_entries demo_sympy
              [ident "x"; tree_tuple; BinOp "y+1" Add (ident "y") (int 1)]
              ["py2texdummyvar0"; "(0,)"; "py2texdummyvar2"]
              [("py2texdummyvar0", VStr "x"); ("py2texdummyvar2", VStr "y+1")]
              eq_refl) as (Hlen & Hargs & _).
  split; [exact Hlen|].
  destruct (Hargs 2%nat (BinOp "y+1" Add (ident "y") (int 1)) eq_refl)
    as (sv & Hsv & Hcase).
  injection Hsv as <-. cbn in Hcase.
  destruct Hcase as (_ & v & Hv & Hin). injection Hv as <-. exact Hin.
Defined.

(** ** The replacement of the placeholders *)

Module ReplaceFacts.

Import StrFacts.

(** Jumping over [k] characters, then scanning. *)
Lemma replace_from_skip (old new u s : string) :
  Str.replace_from old new (String.length u) (u ++ s)
  = Str.replace_from old new 0 s.
Proof.
  induction u as [|c u IH]; [now destruct s|].
  cbn [append String.length Str.replace_from]. exact IH.
Qed.

(** An occurrence with none starting before it and none after it is
    replaced, and nothing else is touched. *)
Lemma replace_single (old new pre post : string) :
  old <> EmptyString ->
  (forall p1 c p2, pre = p1 ++ String c p2 ->
                   prefix old (String c p2 ++ old ++ post) = false) ->
  Str.contains old post = false ->
  Str.replace old new (pre ++ old ++ post) = pre ++ new ++ post.
Proof.
  intros Hne Hpre Hpost. rewrite replace_nonempty by exact Hne.
  induction pre as [|c pre IH].
  - cbn [append]. destruct old as [|a old']; [contradiction|].
    assert (Hp : prefix (String a old') (String a (old' ++ post)) = true)
      by exact (prefix_app (String a old') post).
    cbn [append Str.replace_from]. rewrite Hp.
    replace (String.length (String a old') - 1)%nat with (String.length old')
      by (cbn [String.length]; lia).
    rewrite replace_from_skip.
    now rewrite replace_from_absent.
  - pose proof (Hpre EmptyString c pre eq_refl) as H0.
    cbn [append] in H0 |- *. cbn [Str.replace_from]. rewrite H0.
    f_equal. apply IH.
    intros p1 c' p2 ->. now apply (Hpre (String c p1) c' p2).
Qed.

End ReplaceFacts.

Section GenericOutcome.

Variable sy : Sympy.

Lemma substitute_None (r : list (string * pyval)) :
  forall (k s : string), In (k, VNone) r -> substitute r s = Raise TypeError.
Proof.
  induction r as [|[k' [|l]] r IH]; intros k s; cbn [In substitute].
  - contradiction.
  - reflexivity.
  - intros [H|H]; [discriminate H | now apply (IH k)].
Qed.

Lemma substitute_no_occurrence (r : list (string * pyval)) (tex : string) :
  Forall (fun p => fst p <> EmptyString /\ Str.contains (fst p) tex = false) r ->
  substitute r tex
  = if forallb (fun p => is_string (snd p)) r then Ok tex else Raise TypeError.
Proof.
  induction 1 as [|[k [|l]] r (Hne & Hc) _ IH];
    cbn [substitute forallb fst snd is_string andb] in *.
  - reflexivity.
  - reflexivity.
  - now rewrite StrFacts.replace_absent.
Qed.

Lemma dummy_name_nonempty (i : nat) : dummy_name i <> EmptyString.
Proof. discriminate. Qed.

Lemma dummify_non_expr (visitor : node -> res pyval)
  (args : list node) (texts : list string) :
  Forall2 (fun arg t => exists sv, sympify sy (get_text arg) = Ok sv
                                   /\ is_Expr sy sv = false /\ t = sstr sy sv)
          args texts ->
  forall d0 r0, dummify sy visitor args d0 r0 = Ok ((d0 ++ texts)%list, r0).
Proof.
  induction 1 as [|a t args texts (sv & Hsv & Hex & ->) _ IH]; intros d0 r0.
  - now rewrite app_nil_r.
  - rewrite dummify_cons, Hsv. cbn [bind]. rewrite Hex, IH, <- app_assoc.
    reflexivity.
Qed.

Variables (src : string) (func : node) (args : list node) (f : pyval).
Hypothesis func_value : visit sy func = Ok f.
Hypothesis not_sum : is_str f "Sum" || is_str f "Product" = false.
Hypothesis not_sequence : is_str f "fibonacci" || is_str f "lucas" = false.

(** An argument the evaluator takes for an [Expr] but the translator has
    no rule for makes the generic call raise [TypeError], at the
    replacement of its placeholder. *)
Theorem visit_generic_None_argument
  (d : list string) (r : list (string * pyval)) (sv : sval sy) (tex : string)
  (i : nat) (arg : node) (sva : sval sy) :
  dummify sy (visit sy) args [] [] = Ok (d, r) ->
  sympify sy (get_text func ++ "(" ++ Str.join "," d ++ ")") = Ok sv ->
  latex sy sv = Ok tex ->
  nth_error args i = Some arg ->
  sympify sy (get_text arg) = Ok sva -> is_Expr sy sva = true ->
  visit sy arg = Ok VNone ->
  visit sy (Call src func args) = Raise TypeError.
Proof.
  intros Hd Hsv Htex Hn Hsva Hex Hnone.
  rewrite (visit_generic_eq sy src func args f d r sv tex
             func_value not_sum not_sequence Hd Hsv Htex).
  apply dummify_appends in Hd; [|intros k []].
  destruct Hd as (d' & r' & -> & -> & _ & Hargs & _).
  destruct (Hargs i arg Hn) as (sva' & Hsva' & Hcase).
  rewrite Hsva in Hsva'. injection Hsva' as <-. rewrite Hex in Hcase.
  destruct Hcase as (_ & v & Hv & Hin). rewrite Hnone in Hv. injection Hv as <-.
  cbn [app] in *. now rewrite (substitute_None r' _ tex Hin).
Qed.

(** When the evaluator's LaTeX mentions no placeholder, the translations
    of the arguments are not used: the call translates to that LaTeX when
    every [Expr] argument translated to a string, and raises [TypeError],
    from [replace] given [None], when one of them translated to [None]. *)
Theorem visit_generic_untouched
  (d : list string) (r : list (string * pyval)) (sv : sval sy) (tex : string) :
  dummify sy (visit sy) args [] [] = Ok (d, r) ->
  sympify sy (get_text func ++ "(" ++ Str.join "," d ++ ")") = Ok sv ->
  latex sy sv = Ok tex ->
  (forall k, In k (keys r) -> Str.contains k tex = false) ->
  visit sy (Call src func args)
  = if forallb (fun p => is_string (snd p)) r
    then Ok (VStr tex) else Raise TypeError.
Proof.
  intros Hd Hsv Htex Hfree.
  rewrite (visit_generic_eq sy src func args f d r sv tex
             func_value not_sum not_sequence Hd Hsv Htex).
  rewrite substitute_no_occurrence.
  - now destruct (forallb _ r).
  - apply Forall_forall. intros [k v] Hin. cbn [fst snd]. split.
    + apply dummify_appends in Hd; [|intros k' []].
      destruct Hd as (d' & r' & _ & -> & _ & _ & Hpairs).
      destruct (Hpairs k v Hin) as (i & _ & _ & _ & -> & _).
      apply dummy_name_nonempty.
    + apply Hfree. unfold keys. now apply (in_map fst _ (k, v)).
Qed.

(** Arguments that are not [Expr]s are never visited: with such arguments
    only, the translation of the call is the evaluator's LaTeX for the
    callee text applied to the evaluator's texts of the arguments. *)
Theorem visit_generic_no_expr (texts : list string) (sv : sval sy) (tex : string) :
  Forall2 (fun arg t => exists sva, sympify sy (get_text arg) = Ok sva
                                    /\ is_Expr sy sva = false /\ t = sstr sy sva)
          args texts ->
  sympify sy (get_text func ++ "(" ++ Str.join "," texts ++ ")") = Ok sv ->
  latex sy sv = Ok tex ->
  visit sy (Call src func args) = Ok (VStr tex).
Proof.
  intros Hall Hsv Htex.
  now rewrite (visit_generic_eq sy src func args f texts [] sv tex
                 func_value not_sum not_sequence
                 (dummify_non_expr (visit sy) args texts Hall [] []) Hsv Htex).
Qed.

(** With one [Expr] argument whose placeholder the evaluator's LaTeX has
    once, the translation of the call is that LaTeX with the translation of
    the argument in the place of the placeholder. *)
Theorem visit_generic_single
  (d : list string) (k l : string) (sv : sval sy) (pre post : string) :
  dummify sy (visit sy) args [] [] = Ok (d, [(k, VStr l)]) ->
  sympify sy (get_text func ++ "(" ++ Str.join "," d ++ ")") = Ok sv ->
  latex sy sv = Ok (pre ++ k ++ post) ->
  (forall p1 c p2, pre = p1 ++ String c p2 ->
                   prefix k (String c p2 ++ k ++ post) = false) ->
  Str.contains k post = false ->
  visit sy (Call src func args) = Ok (VStr (pre ++ l ++ post)).
Proof.
  intros Hd Hsv Htex Hpre Hpost.
  rewrite (visit_generic_eq sy src func args f d _ sv _
             func_value not_sum not_sequence Hd Hsv Htex).
  cbn [substitute bind]. rewrite ReplaceFacts.replace_single; auto.
  apply dummify_appends in Hd; [|intros k' []].
  destruct Hd as (d' & r' & _ & Hr & _ & _ & Hpairs). cbn [app] in Hr. subst r'.
  destruct (Hpairs k (VStr l) (or_introl eq_refl)) as (i & _ & _ & _ & -> & _).
  apply dummy_name_nonempty.
Qed.

End GenericOutcome.

Lemma visit_generic_None_argument_witness :
  visit demo_sympy (Call "f(x and y)" (ident "f") [tree_and]) = Raise TypeError.
Proof.
  exact (visit_generic_None_argument demo_sympy "f(x and y)" (ident "f") [tree_and]
           (VStr "f") eq_refl eq_refl eq_refl
           ["py2texdummyvar0"] [("py2texdummyvar0", VNone)]
           "f(py2texdummyvar0)" "f(py2texdummyvar0)" 0%nat tree_and "x and y"
           eq_refl eq_refl eq_refl eq_refl eq_refl eq_refl eq_refl).
Defined.

Lemma visit_generic_untouched_witness :
  visit zero_sympy (Call "diff(x, y)" (ident "diff") [ident "x"; ident "y"])
  = Ok (VStr "0")
  /\ visit zero_sympy (Call "diff(x and y, z)" (ident "diff") [tree_and; ident "z"])
    = Raise TypeError.
Proof.
  split.
  - refine (visit_generic_untouched zero_sympy "diff(x, y)" (ident "diff")
              [ident "x"; ident "y"] (VStr "diff") eq_refl eq_refl eq_refl
              ["py2texdummyvar0"; "py2texdummyvar1"]
              [("py2texdummyvar0", VStr "x"); ("py2texdummyvar1", VStr "y")]
              "diff(py2texdummyvar0,py2texdummyvar1)" "0"
              eq_refl eq_refl eq_refl _).
    intros k [<- | [<- | []]]; reflexivity.
  - refine (visit_generic_untouched zero_sympy "diff(x and y, z)" (ident "diff")
              [tree_and; ident "z"] (VStr "diff") eq_refl eq_refl eq_refl
              ["py2texdummyvar0"; "py2texdummyvar1"]
              [("py2texdummyvar0", VNone); ("py2texdummyvar1", VStr "z")]
              "diff(py2texdummyvar0,py2texdummyvar1)" "0"
              eq_refl eq_refl eq_refl _).
    intros k [<- | [<- | []]]; reflexivity.
Defined.

Lemma visit_generic_no_expr_witness :
  visit demo_sympy (Call "f((0,))" (ident "f") [tree_tuple]) = Ok (VStr "f((0,))").
Proof.
  refine (visit_generic_no_expr demo_sympy "f((0,))" (ident "f") [tree_tuple]
            (VStr "f") eq_refl eq_refl eq_refl ["(0,)"] "f((0,))" "f((0,))"
            _ eq_refl eq_refl).
  constructor; [|constructor]. exists "(0,)". repeat split.
Defined.

Lemma visit_generic_single_witness :
  visit demo_sympy (Call "sqrt(y+1)" (ident "sqrt")
                      [BinOp "y+1" Add (ident "y") (int 1)])
  = Ok (VStr "sqrt(y+1)").
Proof.
  refine (visit_generic_single demo_sympy "sqrt(y+1)" (ident "sqrt")
            [BinOp "y+1" Add (ident "y") (int 1)] (VStr "sqrt")
            eq_refl eq_refl eq_refl
            ["py2texdummyvar0"] "py2texdummyvar0" "y+1" "sqrt(py2texdummyvar0)"
            "sqrt(" ")" eq_refl eq_refl eq_refl _ eq_refl).
  intros p1 c p2 H.
  repeat (destruct p1 as [|? p1];
          [injection H as <- <-; reflexivity | injection H as <- H]).
  destruct p1; discriminate H.
Defined.

(** ** More on the post-processor *)

Section CleanupMore.

Import StrFacts.

(** The post-processor never makes the fragment longer, and a fragment it
    leaves at its length it leaves as it is. *)
Theorem cleanup_length (s : string) :
  (String.length (cleanup s) <= String.length s)%nat
  /\ (String.length (cleanup s) = String.length s -> cleanup s = s).
Proof.
  unfold cleanup.
  assert (H1 : (String.length (Str.replace "(\left(" "\left(" s) <= String.length s)%nat)
    by (apply replace_length; [discriminate | simpl; lia]).
  assert (H2 : forall u,
    (String.length (Str.replace "\right))" "\right)" u) <= String.length u)%nat)
    by (intros u; apply replace_length; [discriminate | simpl; lia]).
  split; [specialize (H2 (Str.replace "(\left(" "\left(" s)); lia|].
  intros Heq.
  destruct (Str.contains "(\left(" s) eqn:Ho.
  - assert ((String.length (Str.replace "(\left(" "\left(" s) < String.length s)%nat)
      by (apply replace_shrinks; [discriminate | simpl; lia | exact Ho]).
    specialize (H2 (Str.replace "(\left(" "\left(" s)). lia.
  - rewrite (replace_absent "(\left(") in * by (discriminate || assumption).
    destruct (Str.contains "\right))" s) eqn:Hc.
    + assert ((String.length (Str.replace "\right))" "\right)" s) < String.length s)%nat)
        by (apply replace_shrinks; [discriminate | simpl; lia | exact Hc]).
      lia.
    + apply replace_absent; [discriminate | assumption].
Qed.

(** The opening pattern is also found inside two [\left(] in a row: the
    post-processor takes the parenthesis of the first one away. *)
Lemma cleanup_double_left (rest : string) :
  exists u, cleanup ("\left(\left(" ++ rest) = "\left\left(" ++ u.
Proof.
  unfold cleanup, Str.replace. eexists.
  cbn. rewrite prefix_nil. cbn. reflexivity.
Qed.

End CleanupMore.

Section NestedGrouping.

Variable sy : Sympy.

Lemma visit_BinOp_infix_eq
  (src : string) (op : operator) (l r : node) (vl vr : pyval) :
  visit sy l = Ok vl -> visit sy r = Ok vr -> infix_rendered op = true ->
  visit sy (BinOp src op l r) =
  Ok (VStr (fmt (if prec_operator op >? prec l then VStr (wrap (fmt vl)) else vl)
            ++ fmt (visit_operator op)
            ++ fmt (if groups_right op r then VStr (wrap (fmt vr)) else vr))).
Proof.
  intros Hl Hr Hop. rewrite (visit_BinOp_eq sy src op l r vl vr Hl Hr).
  destruct op; try discriminate Hop; reflexivity.
Qed.

Lemma wrap_wrap_start (a b c : string) :
  exists rest, wrap (wrap a ++ b) ++ c = "\left(\left(" ++ rest.
Proof. unfold wrap. eexists. cbn. reflexivity. Qed.

(** When a grouped left operand itself starts with a grouped left operand,
    the fragment starts with two [\left(] and [py2tex] returns it with the
    first parenthesis taken away, as [\left\left(...]. *)
Theorem py2tex_nested_left_grouping
  (src src1 : string) (op op1 : operator) (ll lr r : node) (vll vlr vr : pyval) :
  visit sy ll = Ok vll -> visit sy lr = Ok vlr -> visit sy r = Ok vr ->
  infix_rendered op = true -> infix_rendered op1 = true ->
  prec_operator op > prec_operator op1 -> prec_operator op1 > prec ll ->
  exists u, py2tex sy (BinOp src op (BinOp src1 op1 ll lr) r)
            = Ok ("\left\left(" ++ u).
Proof.
  intros Hll Hlr Hr Hop Hop1 Hgt Hgt1.
  pose proof (visit_BinOp_infix_eq src1 op1 ll lr vll vlr Hll Hlr Hop1) as Hin.
  apply Z.gtb_gt in Hgt1. rewrite Hgt1 in Hin. cbn [fmt] in Hin.
  unfold py2tex.
  rewrite (visit_BinOp_infix_eq src op _ r _ vr Hin Hr Hop).
  cbn [prec]. apply Z.gtb_gt in Hgt. rewrite Hgt. cbn [fmt bind].
  match goal with
  | |- exists u, Ok (cleanup (wrap (wrap ?a ++ ?b) ++ ?c)) = _ =>
      destruct (wrap_wrap_start a b c) as [rest ->]
  end.
  destruct (cleanup_double_left rest) as [u ->]. now exists u.
Qed.

End NestedGrouping.

Lemma py2tex_nested_left_grouping_witness :
  exists u, py2tex demo_sympy tree_nested_left = Ok ("\left\left(" ++ u).
Proof.
  refine (py2tex_nested_left_grouping demo_sympy "((a+b)*c) % d" "(a+b)*c" Mod Mult
            (BinOp "a+b" Add (ident "a") (ident "b")) (ident "c") (ident "d")
            (VStr "a+b") (VStr "c") (VStr "d")
            eq_refl eq_refl eq_refl eq_refl eq_refl _ _); reflexivity.
Defined.

Lemma visit_UnaryOp_rendering_witness :
  visit demo_sympy (UnaryOp "-(a+b)" USub (BinOp "a+b" Add (ident "a") (ident "b")))
  = Ok (VStr "- \left(a+b\right)").
Proof.
  exact (visit_UnaryOp_rendering demo_sympy "-(a+b)" USub
           (BinOp "a+b" Add (ident "a") (ident "b")) (VStr "a+b") eq_refl).
Defined.

Lemma visit_BinOp_tight_operands_witness :
  visit demo_sympy (BinOp "a - -b" Sub (ident "a") (UnaryOp "-b" USub (ident "b")))
  = Ok (VStr "a-- b").
Proof.
  exact (visit_BinOp_tight_operands demo_sympy "a - -b" Sub (ident "a")
           (UnaryOp "-b" USub (ident "b")) (VStr "a") (VStr "- b")
           eq_refl eq_refl eq_refl eq_refl eq_refl).
Defined.

Lemma visit_BinOp_no_prec_witness :
  visit demo_sympy (BinOp "(a+b) & c" BitAnd
                      (BinOp "a+b" Add (ident "a") (ident "b")) (ident "c"))
  = Ok (VStr "a+b\operatorname{and}c").
Proof.
  refine (visit_BinOp_no_prec demo_sympy "(a+b) & c" BitAnd
            (BinOp "a+b" Add (ident "a") (ident "b")) (ident "c")
            (VStr "a+b") (VStr "c") eq_refl eq_refl _).
  simpl. tauto.
Defined.

Lemma visit_BinOp_nesting_lost_witness :
  visit demo_sympy
    (BinOp "a % (b % c)" Mod (ident "a") (BinOp "b % c" Mod (ident "b") (ident "c")))
  = visit demo_sympy
    (BinOp "(a % b) % c" Mod (BinOp "a % b" Mod (ident "a") (ident "b")) (ident "c")).
Proof.
  refine (visit_BinOp_nesting_lost demo_sympy _ _ _ _ Mod
            (ident "a") (ident "b") (ident "c") eq_refl _).
  discriminate.
Defined.

(** ** Powers *)

Module LacksFacts.

Import StrFacts.

Lemma lacks_app (x : ascii) (s t : string) :
  lacks x (s ++ t) = lacks x s && lacks x t.
Proof.
  induction s as [|c s IH]; [reflexivity|].
  cbn [append lacks]. now rewrite IH, andb_assoc.
Qed.

Lemma prefix_split (p t : string) :
  prefix p t = true -> exists w, t = p ++ w.
Proof.
  revert t. induction p as [|a p IH]; intros t.
  - exists t. reflexivity.
  - destruct t as [|b t]; [discriminate|].
    rewrite prefix_cons. intros [->%Ascii.eqb_eq [w ->]%IH]%andb_true_iff.
    exists w. reflexivity.
Qed.

(** A pattern with an [x] in it does not occur in a string without [x]. *)
Lemma prefix_lacks (x : ascii) (p t : string) :
  lacks x t = true -> lacks x p = false -> prefix p t = false.
Proof.
  intros Ht Hp. destruct (prefix p t) eqn:E; [|reflexivity].
  apply prefix_split in E as [w ->]. rewrite lacks_app, Hp in Ht. discriminate.
Qed.

Lemma contains_lacks (x : ascii) (p t : string) :
  lacks x t = true -> lacks x p = false -> Str.contains p t = false.
Proof.
  intros Ht Hp. induction t as [|c t IH]; cbn [Str.contains].
  - now apply (prefix_lacks x).
  - rewrite (prefix_lacks x p (String c t) Ht Hp).
    cbn [lacks] in Ht. apply andb_true_iff in Ht as [_ Ht]. now apply IH.
Qed.

Lemma lacks_head (x c : ascii) (s : string) :
  lacks x (String c s) = true -> Ascii.eqb x c = false /\ lacks x s = true.
Proof.
  cbn [lacks]. intros [Hc Hs]%andb_true_iff. split; [|exact Hs].
  rewrite Ascii.eqb_sym. now apply negb_true_iff.
Qed.

(** The opening pattern does not occur behind the one that opens a
    grouped base. *)
Lemma no_opening_behind (s e : string) :
  lacks "\" s = true -> lacks "\" e = true ->
  Str.contains "(\left(" (s ++ "\right))^{" ++ e ++ "}") = false.
Proof.
  intros Hs He.
  assert (HR : Str.contains "(\left(" ("\right))^{" ++ e ++ "}") = false).
  { cbn [append Str.contains].
    repeat (rewrite prefix_cons; cbn [Ascii.eqb Bool.eqb andb orb]).
    apply (contains_lacks "\"); [|reflexivity].
    rewrite lacks_app, He. reflexivity. }
  assert (HP : prefix "\left(" ("\right))^{" ++ e ++ "}") = false).
  { cbn [append]. rewrite !prefix_cons. reflexivity. }
  set (R := "\right))^{" ++ e ++ "}") in *. clearbody R.
  induction s as [|c s IH]; [exact HR|].
  apply lacks_head in Hs as [Hc Hs].
  change (String c s ++ R) with (String c (s ++ R)). cbn [Str.contains].
  rewrite (IH Hs), orb_false_r, prefix_cons.
  apply andb_false_iff. right.
  destruct s as [|c' s]; [exact HP|].
  apply lacks_head in Hs as [Hc' _].
  change (String c' s ++ R) with (String c' (s ++ R)).
  rewrite prefix_cons, Hc'. reflexivity.
Qed.

(** No closing pattern starts inside the wrapped base. *)
Lemma no_closing_inside (s post : string) :
  lacks "\" s = true ->
  forall p1 c p2, "\left(" ++ s = p1 ++ String c p2 ->
                  prefix "\right))" (String c p2 ++ "\right))" ++ post) = false.
Proof.
  intros Hs p1 c p2 H. cbn [append]. rewrite prefix_cons.
  do 6 (destruct p1 as [|? p1];
        [cbn [append] in H; injection H as <- <-; reflexivity
        | cbn [append] in H; injection H as <- H]).
  subst s. rewrite lacks_app in Hs. apply andb_true_iff in Hs as [_ Hs].
  apply lacks_head in Hs as [Hc _]. now rewrite Hc.
Qed.

End LacksFacts.

Section Powers.

Import StrFacts LacksFacts.

Variable sy : Sympy.

(** A power whose base and exponent translate to strings without a
    backslash: [py2tex] returns [\left(base\right)^{exponent}] when the base
    binds looser than [Pow] (the post-processor takes the plain
    parentheses around the wrapped base away) and [(base)^{exponent}]
    otherwise. *)
Theorem py2tex_Pow_plain (src : string) (l r : node) (s e : string) :
  visit sy l = Ok (VStr s) -> visit sy r = Ok (VStr e) ->
  lacks "\" s = true -> lacks "\" e = true ->
  py2tex sy (BinOp src Pow l r)
  = Ok (if prec l <? 700
        then "\left(" ++ s ++ "\right)^{" ++ e ++ "}"
        else "(" ++ s ++ ")^{" ++ e ++ "}").
Proof.
  intros Hl Hr Hs He. unfold py2tex.
  rewrite (visit_BinOp_eq sy src Pow l r _ _ Hl Hr). cbv zeta.
  cbn [bind prec_operator fmt]. rewrite Z.gtb_ltb.
  destruct (prec l <? 700); cbn [fmt]; f_equal.
  - unfold cleanup, wrap.
    replace ("(" ++ ("\left(" ++ s ++ "\right)") ++ ")^{" ++ e ++ "}")
      with (EmptyString ++ "(\left(" ++ s ++ "\right))^{" ++ e ++ "}")
      by (rewrite ?app_assoc; reflexivity).
    rewrite ReplaceFacts.replace_single;
      [| discriminate | intros [|? ?] c p2; discriminate
       | now apply no_opening_behind].
    replace (EmptyString ++ "\left(" ++ s ++ "\right))^{" ++ e ++ "}")
      with (("\left(" ++ s) ++ "\right))" ++ "^{" ++ e ++ "}")
      by (rewrite ?app_assoc; reflexivity).
    rewrite ReplaceFacts.replace_single.
    + rewrite ?app_assoc. reflexivity.
    + discriminate.
    + now apply no_closing_inside.
    + apply (contains_lacks "\"); [|reflexivity].
      cbn [append lacks Ascii.eqb Bool.eqb negb andb].
      rewrite lacks_app, He. reflexivity.
  - assert (Hplain : lacks "\" ("(" ++ s ++ ")^{" ++ e ++ "}") = true).
    { cbn [append lacks Ascii.eqb Bool.eqb negb andb].
      rewrite lacks_app, Hs. cbn [append lacks Ascii.eqb Bool.eqb negb andb].
      rewrite lacks_app, He. reflexivity. }
    unfold cleanup.
    rewrite (replace_absent "(\left(");
      [| discriminate | now apply (contains_lacks "\")].
    apply replace_absent; [discriminate | now apply (contains_lacks "\")].
Qed.

End Powers.

Lemma py2tex_Pow_plain_witness :
  py2tex demo_sympy tree_pow = Ok "\left(a+b\right)^{2}".
Proof.
  exact (py2tex_Pow_plain demo_sympy "(a+b)**2"
           (BinOp "a+b" Add (ident "a") (ident "b")) (int 2) "a+b" "2"
           eq_refl eq_refl eq_refl eq_refl).
Defined.

(** ** Constructs without a rule *)

Section UnsupportedOutcome.

Variable sy : Sympy.



End UnsupportedOutcome.


